(** * Live translation relay: rooms, provider chain and translation cache

    A shallow embedding of the relay servers (the two server variants of the
    repository) and of the browser-side [PerformanceOptimizer] cache, with
    the properties the specification states about them.

    Conventions of the embedding.
    - A JavaScript [Map] is an insertion-ordered association list with
      string keys ([JsMap]); iteration order is list order.
    - [Date.now()] / [new Date()] is an explicit argument [now].
    - The translation backends and the [/api/translate] endpoint are
      external: they are functions of an abstract world that they may
      change, so two calls with the same arguments may answer differently.
      Every call settles (resolves or rejects).
    - A handler returns the actions it performs (socket.io emissions,
      provider calls) next to the new state; a handler runs to completion
      with no other event interleaved.
    - An emission is recorded with the room it is addressed to; which
      sockets receive it is read off the rooms of socket.io, an explicit
      [adapter].
    - A JavaScript string is the sequence of its code units, one character
      each; [s.length] is its length. *)

From Stdlib Require Import List String Ascii ZArith Arith Bool Lia.
Import ListNotations.
Open Scope string_scope.
Open Scope list_scope.
Open Scope nat_scope.

(** ** JavaScript values that a provider may hand back *)

Inductive jsval :=
| JUndefined
| JNull
| JBool (b : bool)
| JNum (n : Z)
| JStr (s : string)
| JObj.

(** [if (result)]: JavaScript truthiness. *)
Definition truthy (v : jsval) : bool :=
  match v with
  | JUndefined | JNull => false
  | JBool b => b
  | JNum n => negb (Z.eqb n 0)
  | JStr s => negb (String.eqb s "")
  | JObj => true
  end.

(** ** Insertion-ordered maps with string keys (JavaScript [Map]) *)

Module JsMap.

Definition t (V : Type) := list (string * V).

Section Ops.
Context {V : Type}.

Definition empty : t V := [].

Fixpoint get (k : string) (m : t V) : option V :=
  match m with
  | [] => None
  | (k', v) :: r => if String.eqb k k' then Some v else get k r
  end.

Definition has (k : string) (m : t V) : bool :=
  match get k m with Some _ => true | None => false end.

(** [m.set(k, v)]: an existing key keeps its position, a new key is
    appended. *)
Fixpoint set (k : string) (v : V) (m : t V) : t V :=
  match m with
  | [] => [(k, v)]
  | (k', v') :: r =>
      if String.eqb k k' then (k, v) :: r else (k', v') :: set k v r
  end.

Fixpoint delete (k : string) (m : t V) : t V :=
  match m with
  | [] => []
  | (k', v') :: r =>
      if String.eqb k k' then r else (k', v') :: delete k r
  end.

Definition size (m : t V) : nat := List.length m.

Definition keys (m : t V) : list string := map fst m.

(** [m.keys().next().value]: the oldest key, [undefined] on an empty map. *)
Definition first_key (m : t V) : option string :=
  match m with
  | [] => None
  | (k, _) :: _ => Some k
  end.
End Ops.

Fixpoint nodupb (l : list string) : bool :=
  match l with
  | [] => true
  | k :: r => negb (existsb (String.eqb k) r) && nodupb r
  end.

(** A list is a [Map] when no key occurs twice. *)
Definition wf {V : Type} (m : t V) : Prop := nodupb (keys m) = true.

End JsMap.

(** ** The browser-side translation cache ([PerformanceOptimizer])

    The cache as [cacheTranslation], [getCachedTranslation] and
    [cleanupCache] write and read it.  The placeholders that the preload
    of the constructor writes to the same map, and the latency metric,
    come with the module [Optimizer] further down. *)

Module PerformanceOptimizer.

Record entry := {
  originalText : string;
  translatedText : jsval;
  sourceLang : string;
  targetLang : string;
  timestamp : Z;
  hitCount : nat;
  lastAccessed : option Z
}.

(** The fields of the optimizer that the translation cache uses. *)
Record optimizer := {
  translationCache : JsMap.t entry;
  maxCacheSize : nat
}.

(** [optimizeForDevice] / [applyOptimizations]: the capacity is 50 on a
    mobile device and 100 otherwise; the constructor starts with an empty
    cache. *)
Definition cacheSize (isMobile : bool) : nat := if isMobile then 50 else 100.

Definition newOptimizer (isMobile : bool) : optimizer :=
  {| translationCache := JsMap.empty; maxCacheSize := cacheSize isMobile |}.

(** The template string [`${text}_${sourceLang}_${targetLang}`]. *)
Definition cacheKey (text sourceLang targetLang : string) : string :=
  text ++ "_" ++ sourceLang ++ "_" ++ targetLang.

Definition evictOldest (cache : JsMap.t entry) : JsMap.t entry :=
  match JsMap.first_key cache with
  | Some oldestKey => JsMap.delete oldestKey cache
  | None => cache
  end.

Definition cacheTranslation (now : Z)
    (originalText : string) (translatedText : jsval)
    (sourceLang targetLang : string) (o : optimizer) : optimizer :=
  let key := cacheKey originalText sourceLang targetLang in
  let cache :=
    if maxCacheSize o <=? JsMap.size (translationCache o)
    then evictOldest (translationCache o)
    else translationCache o in
  {| translationCache :=
       JsMap.set key
         {| originalText := originalText;
            translatedText := translatedText;
            sourceLang := sourceLang;
            targetLang := targetLang;
            timestamp := now;
            hitCount := 0;
            lastAccessed := None |} cache;
     maxCacheSize := maxCacheSize o |}.

Definition touch (now : Z) (e : entry) : entry :=
  {| originalText := originalText e;
     translatedText := translatedText e;
     sourceLang := sourceLang e;
     targetLang := targetLang e;
     timestamp := timestamp e;
     hitCount := S (hitCount e);
     lastAccessed := Some now |}.

(** Returns the cached object, which it has just updated in place. *)
Definition getCachedTranslation (now : Z)
    (text sourceLang targetLang : string) (o : optimizer)
  : option entry * optimizer :=
  let key := cacheKey text sourceLang targetLang in
  match JsMap.get key (translationCache o) with
  | Some cached =>
      let cached' := touch now cached in
      (Some cached',
       {| translationCache := JsMap.set key cached' (translationCache o);
          maxCacheSize := maxCacheSize o |})
  | None => (None, o)
  end.

Definition maxAge : Z := 30 * 60 * 1000.

(** The translation-cache loop of [cleanupCache]. *)
Definition cleanupCache (now : Z) (o : optimizer) : optimizer :=
  {| translationCache :=
       filter (fun kv => negb (maxAge <? now - timestamp (snd kv))%Z)
              (translationCache o);
     maxCacheSize := maxCacheSize o |}.

(** *** [translateSingle]: cache, then the [/api/translate] endpoint *)

Record request := {
  text : string;
  reqSourceLang : string;
  reqTargetLang : string
}.

(** What [await response.json()] yields: the fields [translateSingle]
    reads. *)
Record reply := {
  success : jsval;
  replyText : jsval
}.

Inductive fetched :=
| Answered (r : reply)
| FetchFailed (message : string).

(** The endpoint behind [fetch('/api/translate')]. *)
Record Backend := {
  backend_world : Type;
  post_translate : request -> backend_world -> fetched * backend_world
}.

Inductive single_result :=
| FromCache (originalText : string) (translatedText : jsval)
| FromServer (r : reply)
| SingleError (message : string).

(** [translateSingle] returns its result, the requests it sent, the
    optimizer and the backend world.  [now] is the clock at the lookup,
    [now'] the clock when the reply is cached.  The latency metric it also
    records plays no part in the cache and is left out. *)
Definition translateSingle (B : Backend) (now now' : Z) (req : request)
    (o : optimizer) (w : backend_world B)
  : single_result * list request * optimizer * backend_world B :=
  match getCachedTranslation now (text req) (reqSourceLang req)
          (reqTargetLang req) o with
  | (Some cached, o1) =>
      (FromCache (originalText cached) (translatedText cached), [], o1, w)
  | (None, o1) =>
      match post_translate B req w with
      | (Answered result, w1) =>
          let o2 :=
            if truthy (success result)
            then cacheTranslation now' (text req) (replyText result)
                   (reqSourceLang req) (reqTargetLang req) o1
            else o1 in
          (FromServer result, [req], o2, w1)
      | (FetchFailed message, w1) =>
          (SingleError ("Translation failed: " ++ message), [req], o1, w1)
      end
  end.

(** The cache operations of the component contract. *)
Inductive cache_op :=
| Store (now : Z) (text : string) (translated : jsval) (src tgt : string)
| Lookup (now : Z) (text src tgt : string)
| Sweep (now : Z).

Definition run_op (op : cache_op) (o : optimizer) : optimizer :=
  match op with
  | Store now text translated src tgt =>
      cacheTranslation now text translated src tgt o
  | Lookup now text src tgt => snd (getCachedTranslation now text src tgt o)
  | Sweep now => cleanupCache now o
  end.

Definition run_ops (ops : list cache_op) (o : optimizer) : optimizer :=
  fold_left (fun o op => run_op op o) ops o.

(** The keys written by the [Store] operations of a sequence, in order. *)
Fixpoint stored_keys (ops : list cache_op) : list string :=
  match ops with
  | [] => []
  | Store _ text _ src tgt :: r => cacheKey text src tgt :: stored_keys r
  | _ :: r => stored_keys r
  end.

Definition is_sweep (op : cache_op) : bool :=
  match op with
  | Sweep _ => true
  | _ => false
  end.

(** The last [n] elements of a list. *)
Definition newest {A : Type} (n : nat) (l : list A) : list A :=
  skipn (List.length l - n) l.

End PerformanceOptimizer.

(** ** The provider chain ([translateWithFreeServices], both variants) *)

Inductive service := LibreTranslate | MyMemory | Lingva.

(** How one backend call settles: [translateWithLibreTranslate] and its
    siblings either return a value read from the response or throw. *)
Inductive outcome :=
| Resolved (v : jsval)
| Rejected (message : string).

(** The outside world of the server: the three translation backends and
    the clock behind [new Date()]. *)
Record Network := {
  world : Type;
  translateWith :
    service -> string -> string -> string -> world -> outcome * world;
  clock : world -> Z
}.

(** One backend invocation, with the way it settled. *)
Record call := {
  callee : service;
  callText : string;
  callSource : string;
  callTarget : string;
  settled : outcome
}.

Inductive chain_result :=
| Translated (v : jsval)
| ChainError (message : string).

(** The array [services], in source order. *)
Definition services : list service := [LibreTranslate; MyMemory; Lingva].

(** A call is usable when it returned a truthy value ([if (result)]). *)
Definition usable (o : outcome) : option jsval :=
  match o with
  | Resolved v => if truthy v then Some v else None
  | Rejected _ => None
  end.

(** The [for (const service of services)] loop and the final [throw]. *)
Fixpoint tryServices (N : Network) (ss : list service)
    (text sourceLang targetLang : string) (w : world N)
  : chain_result * list call * world N :=
  match ss with
  | [] => (ChainError "All translation services failed", [], w)
  | s :: rest =>
      let '(o, w1) := translateWith N s text sourceLang targetLang w in
      let c := {| callee := s; callText := text; callSource := sourceLang;
                  callTarget := targetLang; settled := o |} in
      match usable o with
      | Some result => (Translated result, [c], w1)
      | None =>
          let '(r, cs, w2) := tryServices N rest text sourceLang targetLang w1 in
          (r, c :: cs, w2)
      end
  end.

Definition translateWithFreeServices (N : Network)
    (text sourceLang targetLang : string) (w : world N)
  : chain_result * list call * world N :=
  tryServices N services text sourceLang targetLang w.

(** The backend calls of a log failed when none returned a usable value. *)
Definition failed (c : call) : Prop := usable (settled c) = None.

(** The call was made with these arguments. *)
Definition about (text src tgt : string) (c : call) : Prop :=
  callText c = text /\ callSource c = src /\ callTarget c = tgt.

(** A log is genuine from world [w] when every entry records what the
    backend answered at its turn; [after_calls] is the world it leaves. *)
Fixpoint genuine (N : Network) (calls : list call) (w : world N) : Prop :=
  match calls with
  | [] => True
  | c :: r =>
      settled c =
        fst (translateWith N (callee c) (callText c) (callSource c)
               (callTarget c) w)
      /\ genuine N r
           (snd (translateWith N (callee c) (callText c) (callSource c)
                   (callTarget c) w))
  end.

Fixpoint after_calls (N : Network) (calls : list call) (w : world N)
  : world N :=
  match calls with
  | [] => w
  | c :: r =>
      after_calls N r
        (snd (translateWith N (callee c) (callText c) (callSource c)
                (callTarget c) w))
  end.

(** ** socket.io actions *)

Inductive target :=
| ToSelf (socketId : string)                (* socket.emit *)
| ToOthers (room : string) (socketId : string) (* socket.to(room).emit *)
| ToRoom (room : string).                   (* io.to(room).emit *)

Inductive action (E : Type) :=
| Emit (t : target) (e : E)
| SocketJoin (socketId room : string)
| SocketLeave (socketId room : string)
| Invoke (c : call).

Arguments Emit {E} t e.
Arguments SocketJoin {E} socketId room.
Arguments SocketLeave {E} socketId room.
Arguments Invoke {E} c.

(** An emission addressed to socket [u]: to its private room,
    [io.to(u).emit] or [socket.to(u).emit], or from its own handler with
    [socket.emit]. *)
Definition addressed_to {E : Type} (u : string) (a : action E) : bool :=
  match a with
  | Emit (ToRoom r) _ => String.eqb r u
  | Emit (ToOthers r _) _ => String.eqb r u
  | Emit (ToSelf s) _ => String.eqb s u
  | _ => false
  end.

Definition is_invoke {E : Type} (a : action E) : bool :=
  match a with
  | Invoke _ => true
  | _ => false
  end.

(** Number of events sent to socket [u] in a trace. *)
Definition events_to {E : Type} (u : string) (tr : list (action E)) : nat :=
  List.length (filter (addressed_to u) tr).

(** The actions of a relay, iteration by iteration, in order. *)
Definition flatten {E : Type} (log : list (string * list (action E)))
  : list (action E) :=
  List.concat (map snd log).

(** [for (const [userId, userInfo] of members) { body }]: the loop visits
    the entries in insertion order and threads the outside world; the log
    pairs each member visited with the actions of its iteration. *)
Fixpoint forEach {V E W : Type}
    (body : string -> V -> W -> list (action E) * W)
    (members : JsMap.t V) (w : W) : list (string * list (action E)) * W :=
  match members with
  | [] => ([], w)
  | (userId, info) :: rest =>
      let '(acts, w1) := body userId info w in
      let '(log, w2) := forEach body rest w1 in
      ((userId, acts) :: log, w2)
  end.

(** ** First server variant *)

Module FirstServer.

Record userInfo := {
  userName : string;
  userLanguage : string;
  joinedAt : Z
}.

Record room := {
  id : string;
  users : JsMap.t userInfo;
  createdAt : Z
}.

Record session := {
  roomId : string;
  sessionUserName : string;
  sessionUserLanguage : string
}.

(** The two module-level maps [rooms] and [userSessions]. *)
Record state := {
  rooms : JsMap.t room;
  userSessions : JsMap.t session
}.

Definition initial : state :=
  {| rooms := JsMap.empty; userSessions := JsMap.empty |}.

Inductive event :=
| RoomJoined (roomId : string) (users : list (string * string * string))
| UserJoined (userName userLanguage userId : string)
| UserLeft (userName userId : string)
| LiveTranslation (originalText : string) (translatedText : jsval)
    (speakerName sourceLanguage targetLanguage : string) (timestamp : Z)
    (error : option string)
| NewMessage (originalText speakerName : string) (timestamp : Z)
| UserLanguageChanged (userName userId oldLanguage newLanguage : string).

(** [room.users = us], the room object being mutated in place. *)
Definition with_users (r : room) (us : JsMap.t userInfo) : room :=
  {| id := id r; users := us; createdAt := createdAt r |}.

(** Removing socket [socketId] from the room [rid] it occupies: the block
    shared by [join-room] ("Leave previous room if any") and [disconnect]. *)
Definition removeFromRoom (socketId rid name : string) (rs : JsMap.t room)
  : list (action event) * JsMap.t room :=
  match JsMap.get rid rs with
  | Some r =>
      let r' := with_users r (JsMap.delete socketId (users r)) in
      let rs1 := JsMap.set rid r' rs in
      ([Emit (ToOthers rid socketId) (UserLeft name socketId)],
       if JsMap.size (users r') =? 0 then JsMap.delete rid rs1 else rs1)
  | None => ([], rs)
  end.

Definition snapshot (us : JsMap.t userInfo) : list (string * string * string) :=
  map (fun kv => (fst kv, userName (snd kv), userLanguage (snd kv))) us.

(** [socket.on('join-room')]; [data] is [{roomId, userName, userLanguage}]. *)
Definition joinRoom (socketId : string) (rid name lang : string) (now : Z)
    (st : state) : list (action event) * state :=
  let '(acts1, rs1) :=
    match JsMap.get socketId (userSessions st) with
    | Some prevSession =>
        let '(acts, rs) :=
          removeFromRoom socketId (roomId prevSession)
            (sessionUserName prevSession) (rooms st) in
        (SocketLeave socketId (roomId prevSession) :: acts, rs)
    | None => ([], rooms st)
    end in
  let rs2 :=
    if JsMap.has rid rs1 then rs1
    else JsMap.set rid
           {| id := rid; users := JsMap.empty; createdAt := now |} rs1 in
  match JsMap.get rid rs2 with
  | Some r =>
      let info :=
        {| userName := name; userLanguage := lang; joinedAt := now |} in
      let r' := with_users r (JsMap.set socketId info (users r)) in
      (acts1 ++
       [SocketJoin socketId rid;
        Emit (ToSelf socketId) (RoomJoined rid (snapshot (users r')));
        Emit (ToOthers rid socketId) (UserJoined name lang socketId)],
       {| rooms := JsMap.set rid r' rs2;
          userSessions :=
            JsMap.set socketId
              {| roomId := rid; sessionUserName := name;
                 sessionUserLanguage := lang |} (userSessions st) |})
  | None => (acts1, {| rooms := rs2; userSessions := userSessions st |})
  end.

(** One iteration of the loop of [live-speech] over [room.users]. *)
Definition relayTo (N : Network) (socketId : string) (s : session)
    (text sourceLanguage : string) (userId : string) (info : userInfo)
    (w : world N) : list (action event) * world N :=
  if String.eqb userId socketId then ([], w)
  else if negb (String.eqb (userLanguage info) sourceLanguage) then
    let '(res, calls, w1) :=
      translateWithFreeServices N text sourceLanguage (userLanguage info) w in
    match res with
    | Translated translatedText =>
        (map Invoke calls ++
         [Emit (ToRoom userId)
            (LiveTranslation text translatedText (sessionUserName s)
               sourceLanguage (userLanguage info) (clock N w1) None)], w1)
    | ChainError _ =>
        (map Invoke calls ++
         [Emit (ToRoom userId)
            (LiveTranslation text (JStr text) (sessionUserName s)
               sourceLanguage (userLanguage info) (clock N w1)
               (Some "Translation failed"))], w1)
    end
  else
    ([Emit (ToRoom userId) (NewMessage text (sessionUserName s) (clock N w))],
     w).

(** [socket.on('live-speech')]; [data] is an object [{text, sourceLanguage}]
    with string fields.  The result lists, for each loop iteration, the
    member visited and the actions of that iteration. *)
Definition liveSpeech (N : Network) (socketId : string)
    (text sourceLanguage : string) (st : state) (w : world N)
  : list (string * list (action event)) * world N :=
  match JsMap.get socketId (userSessions st) with
  | None => ([], w)
  | Some s =>
      match JsMap.get (roomId s) (rooms st) with
      | None => ([], w)
      | Some r =>
          forEach (relayTo N socketId s text sourceLanguage) (users r) w
      end
  end.

(** [socket.on('change-language')]. *)
Definition changeLanguage (socketId : string) (language : string)
    (st : state) : list (action event) * state :=
  match JsMap.get socketId (userSessions st) with
  | None => ([], st)
  | Some s =>
      let oldLanguage := sessionUserLanguage s in
      let s' := {| roomId := roomId s; sessionUserName := sessionUserName s;
                   sessionUserLanguage := language |} in
      let sessions' := JsMap.set socketId s' (userSessions st) in
      match JsMap.get (roomId s) (rooms st) with
      | Some r =>
          match JsMap.get socketId (users r) with
          | Some info =>
              let info' := {| userName := userName info;
                              userLanguage := language;
                              joinedAt := joinedAt info |} in
              ([Emit (ToOthers (roomId s) socketId)
                  (UserLanguageChanged (sessionUserName s) socketId
                     oldLanguage language)],
               {| rooms :=
                    JsMap.set (roomId s)
                      (with_users r (JsMap.set socketId info' (users r)))
                      (rooms st);
                  userSessions := sessions' |})
          | None => ([], {| rooms := rooms st; userSessions := sessions' |})
          end
      | None => ([], {| rooms := rooms st; userSessions := sessions' |})
      end
  end.

(** [socket.on('disconnect')]. *)
Definition disconnect (socketId : string) (st : state)
  : list (action event) * state :=
  match JsMap.get socketId (userSessions st) with
  | Some s =>
      let '(acts, rs) :=
        removeFromRoom socketId (roomId s) (sessionUserName s) (rooms st) in
      (acts, {| rooms := rs;
                userSessions := JsMap.delete socketId (userSessions st) |})
  | None => ([], st)
  end.

Inductive response (A : Type) :=
| NotFound (error : string)   (* status 404 *)
| Json (body : A).

Arguments NotFound {A} error.
Arguments Json {A} body.

Record roomInfo := {
  infoRoomId : string;
  userCount : nat;
  infoUsers : list (string * string * string * Z);
  infoCreatedAt : Z
}.

(** [app.get('/api/room/:roomId')]. *)
Definition getRoom (rid : string) (st : state) : response roomInfo :=
  match JsMap.get rid (rooms st) with
  | None => NotFound "Room not found"
  | Some r =>
      Json {| infoRoomId := rid;
              userCount := JsMap.size (users r);
              infoUsers :=
                map (fun kv => (fst kv, userName (snd kv),
                                userLanguage (snd kv), joinedAt (snd kv)))
                    (users r);
              infoCreatedAt := createdAt r |}
  end.

(** [app.post('/api/room')]; [rid] is the identifier drawn from
    [uuidv4().substring(0, 8).toUpperCase()]. *)
Definition postRoom (rid : string) (now : Z) (st : state) : string * state :=
  (rid,
   {| rooms := JsMap.set rid
        {| id := rid; users := JsMap.empty; createdAt := now |} (rooms st);
      userSessions := userSessions st |}).

(** Every registered room has at least one member. *)
Definition populated (rs : JsMap.t room) : Prop :=
  forall rid r, JsMap.get rid rs = Some r -> 1 <= JsMap.size (users r).

(** The events that change the registry. *)
Inductive input :=
| JoinRoom (socketId roomId userName userLanguage : string) (now : Z)
| ChangeLanguage (socketId language : string)
| Disconnect (socketId : string).

Definition step (i : input) (st : state) : state :=
  match i with
  | JoinRoom sid rid name lang now => snd (joinRoom sid rid name lang now st)
  | ChangeLanguage sid lang => snd (changeLanguage sid lang st)
  | Disconnect sid => snd (disconnect sid st)
  end.

End FirstServer.

(** ** Second server variant *)

Module SecondServer.

Record userInfo := {
  userName : string;
  userLanguage : string;
  joinedAt : Z
}.

Record session := {
  roomId : string;
  sessionUserName : string;
  sessionUserLanguage : string;
  sessionJoinedAt : Z
}.

(** The two module-level maps [activeRooms] and [userSessions]; a room is
    the map of its users. *)
Record state := {
  activeRooms : JsMap.t (JsMap.t userInfo);
  userSessions : JsMap.t session
}.

Definition initial : state :=
  {| activeRooms := JsMap.empty; userSessions := JsMap.empty |}.

Inductive event :=
| UserJoined (userId userName userLanguage : string) (timestamp : Z)
| RoomJoined (roomId : string) (users : JsMap.t userInfo) (message : string)
| LiveTranslation (originalText : string) (translatedText : jsval)
    (sourceLanguage targetLanguage speakerName speakerId : string)
    (isInterim : bool) (timestamp : Z)
| UserLanguageChanged (userId userName newLanguage : string) (timestamp : Z)
| UserLeft (userId userName : string) (timestamp : Z).

(** [updateRoomUsers(roomId, userId, action)]; [action] is the string
    ['join'] or ['leave']. *)
Definition updateRoomUsers (rid userId action : string) (st : state)
  : state :=
  let rs1 :=
    if JsMap.has rid (activeRooms st) then activeRooms st
    else JsMap.set rid JsMap.empty (activeRooms st) in
  match JsMap.get rid rs1 with
  | Some r =>
      if String.eqb action "join" then
        match JsMap.get userId (userSessions st) with
        | Some s =>
            {| activeRooms :=
                 JsMap.set rid
                   (JsMap.set userId
                      {| userName := sessionUserName s;
                         userLanguage := sessionUserLanguage s;
                         joinedAt := sessionJoinedAt s |} r) rs1;
               userSessions := userSessions st |}
        | None => {| activeRooms := rs1; userSessions := userSessions st |}
        end
      else if String.eqb action "leave" then
        let r' := JsMap.delete userId r in
        let rs2 := JsMap.set rid r' rs1 in
        {| activeRooms :=
             if JsMap.size r' =? 0 then JsMap.delete rid rs2 else rs2;
           userSessions := userSessions st |}
      else {| activeRooms := rs1; userSessions := userSessions st |}
  | None => {| activeRooms := rs1; userSessions := userSessions st |}
  end.

(** [activeRooms.get(roomId) || new Map()]. *)
Definition getRoomUsers (rid : string) (st : state) : JsMap.t userInfo :=
  match JsMap.get rid (activeRooms st) with
  | Some r => r
  | None => JsMap.empty
  end.

(** [a || b] on strings: the empty string is falsy. *)
Definition orElse (a b : string) : string :=
  if String.eqb a "" then b else a.

(** [socket.on('join-room')]; [randomName] is the string
    [`User${Math.floor(Math.random() * 1000)}`] drawn for this call. *)
Definition joinRoom (socketId : string) (rid name lang : string)
    (randomName : string) (now : Z) (st : state)
  : list (action event) * state :=
  let '(acts1, st1) :=
    match JsMap.get socketId (userSessions st) with
    | Some s =>
        let oldRoom := roomId s in
        ([SocketLeave socketId oldRoom],
         updateRoomUsers oldRoom socketId "leave" st)
    | None => ([], st)
    end in
  let stored := orElse name randomName in
  let st2 :=
    {| activeRooms := activeRooms st1;
       userSessions :=
         JsMap.set socketId
           {| roomId := rid;
              sessionUserName := stored;
              sessionUserLanguage := orElse lang "en";
              sessionJoinedAt := now |} (userSessions st1) |} in
  let st3 := updateRoomUsers rid socketId "join" st2 in
  (acts1 ++
   [SocketJoin socketId rid;
    Emit (ToOthers rid socketId) (UserJoined socketId stored lang now);
    Emit (ToSelf socketId)
      (RoomJoined rid (getRoomUsers rid st3)
         "Connected to conversation room")],
   st3).

(** One iteration of the loop of [live-speech] over [roomUsers]. *)
Definition relayTo (N : Network) (socketId : string) (s : session)
    (text : string) (isInterim : bool) (userId : string) (info : userInfo)
    (w : world N) : list (action event) * world N :=
  let sourceLanguage := sessionUserLanguage s in
  if String.eqb userId socketId then ([], w)
  else
    let targetLang := userLanguage info in
    if String.eqb targetLang sourceLanguage then ([], w)
    else
      let '(res, calls, w1) :=
        translateWithFreeServices N text sourceLanguage targetLang w in
      match res with
      | Translated translation =>
          (map Invoke calls ++
           [Emit (ToOthers userId socketId)
              (LiveTranslation text translation sourceLanguage targetLang
                 (sessionUserName s) socketId isInterim (clock N w1))], w1)
      | ChainError _ => (map Invoke calls, w1)
      end.

(** [socket.on('live-speech')]; [data] is [{text, isInterim}]. *)
Definition liveSpeech (N : Network) (socketId : string)
    (text : string) (isInterim : bool) (st : state) (w : world N)
  : list (string * list (action event)) * world N :=
  match JsMap.get socketId (userSessions st) with
  | None => ([], w)
  | Some s =>
      forEach (relayTo N socketId s text isInterim)
        (getRoomUsers (roomId s) st) w
  end.

(** [socket.on('change-language')]: only the session is updated. *)
Definition changeLanguage (socketId : string) (language : string) (now : Z)
    (st : state) : list (action event) * state :=
  match JsMap.get socketId (userSessions st) with
  | Some s =>
      ([Emit (ToOthers (roomId s) socketId)
          (UserLanguageChanged socketId (sessionUserName s) language now)],
       {| activeRooms := activeRooms st;
          userSessions :=
            JsMap.set socketId
              {| roomId := roomId s;
                 sessionUserName := sessionUserName s;
                 sessionUserLanguage := language;
                 sessionJoinedAt := sessionJoinedAt s |} (userSessions st) |})
  | None => ([], st)
  end.

(** [socket.on('disconnect')]. *)
Definition disconnect (socketId : string) (now : Z) (st : state)
  : list (action event) * state :=
  match JsMap.get socketId (userSessions st) with
  | Some s =>
      let st1 := updateRoomUsers (roomId s) socketId "leave" st in
      ([Emit (ToOthers (roomId s) socketId)
          (UserLeft socketId (sessionUserName s) now)],
       {| activeRooms := activeRooms st1;
          userSessions := JsMap.delete socketId (userSessions st1) |})
  | None => ([], st)
  end.

End SecondServer.

(** ** Scenarios

    Concrete caches, networks and rooms on which the model is run. *)

Module Scenario.

(** A cache of capacity two. *)
Definition tiny : PerformanceOptimizer.optimizer :=
  {| PerformanceOptimizer.translationCache := JsMap.empty;
     PerformanceOptimizer.maxCacheSize := 2 |}.

Definition three_stores : list PerformanceOptimizer.cache_op :=
  [PerformanceOptimizer.Store 1 "Hello" (JStr "Hola") "en" "es";
   PerformanceOptimizer.Lookup 2 "Hello" "en" "es";
   PerformanceOptimizer.Store 3 "Please" (JStr "Por favor") "en" "es";
   PerformanceOptimizer.Store 4 "Thank you" (JStr "Merci") "en" "fr"].

Definition full_cache : PerformanceOptimizer.optimizer :=
  PerformanceOptimizer.run_ops
    [PerformanceOptimizer.Store 1 "Hello" (JStr "Hola") "en" "es";
     PerformanceOptimizer.Store 2 "Please" (JStr "Por favor") "en" "es"]
    tiny.

(** A desktop cache that already holds the translation of "Hello". *)
Definition warm : PerformanceOptimizer.optimizer :=
  PerformanceOptimizer.cacheTranslation 1 "Hello" (JStr "Hola") "en" "es"
    (PerformanceOptimizer.newOptimizer false).

(** Every backend rejects every call. *)
Definition down : Network :=
  {| world := unit;
     translateWith := fun _ _ _ _ w => (Rejected "unreachable", w);
     clock := fun _ => 0%Z |}.

(** LibreTranslate is down, MyMemory answers; the world counts the calls
    and serves as the clock. *)
Definition up : Network :=
  {| world := nat;
     translateWith := fun s text _ tgt w =>
       (match s with
        | LibreTranslate => Rejected "LibreTranslate failed"
        | MyMemory => Resolved (JStr ("[" ++ tgt ++ "] " ++ text))
        | Lingva => Resolved (JStr "unused")
        end, S w);
     clock := fun w => Z.of_nat w |}.

(** An endpoint that translates everything to "Hola". *)
Definition endpoint : PerformanceOptimizer.Backend :=
  {| PerformanceOptimizer.backend_world := nat;
     PerformanceOptimizer.post_translate := fun _ w =>
       (PerformanceOptimizer.Answered
          {| PerformanceOptimizer.success := JBool true;
             PerformanceOptimizer.replyText := JStr "Hola" |}, S w) |}.

(** Room R1 of the first server: Alice (en), Bob (es), Carol (en). *)
Definition room1 : FirstServer.state :=
  fold_left (fun st i => FirstServer.step i st)
    [FirstServer.JoinRoom "alice" "R1" "Alice" "en" 1;
     FirstServer.JoinRoom "bob" "R1" "Bob" "es" 2;
     FirstServer.JoinRoom "carol" "R1" "Carol" "en" 3]
    FirstServer.initial.

(** Alice alone in room ABC123 of the first server. *)
Definition alone : FirstServer.state :=
  FirstServer.step (FirstServer.JoinRoom "alice" "ABC123" "Alice" "en" 1)
    FirstServer.initial.

(** The same room R1 on the second server. *)
Definition room2 : SecondServer.state :=
  snd (SecondServer.joinRoom "carol" "R1" "Carol" "en" "User7" 3
    (snd (SecondServer.joinRoom "bob" "R1" "Bob" "es" "User7" 2
      (snd (SecondServer.joinRoom "alice" "R1" "Alice" "en" "User7" 1
         SecondServer.initial))))).

End Scenario.

(** ** Further code of the optimizer: audio cache and metrics *)

Module AudioCache.

Record entry (A : Type) := {
  buffer : A;
  timestamp : Z
}.

Arguments buffer {A} e.
Arguments timestamp {A} e.

(** The template string [`${text}_${language}`]. *)
Definition audioKey (text language : string) : string :=
  text ++ "_" ++ language.

(** [cacheAudioBuffer]; [maxCacheSize] is the limit the optimizer shares
    with the translation cache. *)
Definition cacheAudioBuffer {A : Type} (now : Z) (text language : string)
    (audioBuffer : A) (maxCacheSize : nat) (cache : JsMap.t (entry A))
  : JsMap.t (entry A) :=
  let key := audioKey text language in
  let cache1 :=
    if maxCacheSize <=? JsMap.size cache then
      match JsMap.first_key cache with
      | Some oldestKey => JsMap.delete oldestKey cache
      | None => cache
      end
    else cache in
  JsMap.set key {| buffer := audioBuffer; timestamp := now |} cache1.

(** [getCachedAudioBuffer]: the entry, or [undefined]. *)
Definition getCachedAudioBuffer {A : Type} (text language : string)
    (cache : JsMap.t (entry A)) : option (entry A) :=
  JsMap.get (audioKey text language) cache.

(** The audio-buffer loop of [cleanupCache]. *)
Definition cleanupAudio {A : Type} (now : Z) (cache : JsMap.t (entry A))
  : JsMap.t (entry A) :=
  filter (fun kv =>
            negb (PerformanceOptimizer.maxAge <? now - timestamp (snd kv))%Z)
         cache.

End AudioCache.

Module Metrics.

(** The objects pushed on the metric arrays. *)
Inductive sample :=
| MemorySample (timestamp used total limit : Z)
| LatencySample (timestamp latency : Z) (textLength : nat).

Record performanceMetrics := {
  translationLatency : list sample;
  speechRecognitionLatency : list sample;
  ttsLatency : list sample;
  memoryUsage : list sample;
  cpuUsage : list sample
}.

(** [if (a.length > 50) a = a.slice(-50)]. *)
Definition keepLast50 (a : list sample) : list sample :=
  if 50 <? List.length a
  then skipn (List.length a - 50) a
  else a.

(** [collectPerformanceMetrics]; [memory] is [performance.memory] where the
    browser has it. *)
Definition collectPerformanceMetrics (memory : option (Z * Z * Z)) (now : Z)
    (m : performanceMetrics) : performanceMetrics :=
  let usage :=
    match memory with
    | Some (used, total, limit) =>
        memoryUsage m ++ [MemorySample now used total limit]
    | None => memoryUsage m
    end in
  {| translationLatency := keepLast50 (translationLatency m);
     speechRecognitionLatency := keepLast50 (speechRecognitionLatency m);
     ttsLatency := keepLast50 (ttsLatency m);
     memoryUsage := keepLast50 usage;
     cpuUsage := keepLast50 (cpuUsage m) |}.

(** [getLatestMemoryUsage]: the last sample, or [null]. *)
Definition getLatestMemoryUsage (m : performanceMetrics) : option sample :=
  match memoryUsage m with
  | [] => None
  | x :: r => Some (last r x)
  end.

Definition fields (m : performanceMetrics) : list (list sample) :=
  [translationLatency m; speechRecognitionLatency m; ttsLatency m;
   memoryUsage m; cpuUsage m].

End Metrics.

(** ** Further code of the first server: conversation messages *)

Module FirstServerMessages.

(** The two events of [conversation-message]; both carry the message
    type. *)
Inductive event :=
| LiveTranslation (originalText : string) (translatedText : jsval)
    (speakerName sourceLanguage targetLanguage : string) (timestamp : Z)
    (messageType : string)
| NewMessage (originalText speakerName : string) (timestamp : Z)
    (messageType : string).

(** One iteration of the loop of [conversation-message]. *)
Definition relayTo (N : Network) (socketId : string)
    (s : FirstServer.session) (text messageType : string)
    (userId : string) (info : FirstServer.userInfo) (w : world N)
  : list (action event) * world N :=
  if String.eqb userId socketId then ([], w)
  else if negb (String.eqb (FirstServer.userLanguage info)
                  (FirstServer.sessionUserLanguage s)) then
    let '(res, calls, w1) :=
      translateWithFreeServices N text (FirstServer.sessionUserLanguage s)
        (FirstServer.userLanguage info) w in
    match res with
    | Translated translatedText =>
        (map Invoke calls ++
         [Emit (ToRoom userId)
            (LiveTranslation text translatedText
               (FirstServer.sessionUserName s)
               (FirstServer.sessionUserLanguage s)
               (FirstServer.userLanguage info) (clock N w1) messageType)],
         w1)
    | ChainError _ => (map Invoke calls, w1)
    end
  else
    ([Emit (ToRoom userId)
        (NewMessage text (FirstServer.sessionUserName s) (clock N w)
           messageType)], w).


End FirstServerMessages.

(** ** Further code of the second server: HTTP routes *)

Module SecondServerApi.

(** The two answers of [app.post('/api/translate')]: status 200 with
    [success: true], or status 500 with [success: false]. *)
Inductive translateResponse :=
| TranslateOk (originalText : string) (translatedText : jsval)
    (sourceLanguage targetLanguage service : string)
| TranslateFailed (error message : string).

(** [app.post('/api/translate')]; the body is an object
    [{text, targetLanguage, sourceLanguage}] with string fields. *)
Definition postTranslate (N : Network)
    (text targetLanguage sourceLanguage : string) (w : world N)
  : translateResponse * list call * world N :=
  let '(res, calls, w1) :=
    translateWithFreeServices N text sourceLanguage targetLanguage w in
  match res with
  | Translated translation =>
      (TranslateOk text translation
         (SecondServer.orElse sourceLanguage "auto") targetLanguage "free",
       calls, w1)
  | ChainError message =>
      (TranslateFailed "Translation failed" message, calls, w1)
  end.

Record roomInfo := {
  infoRoomId : string;
  userCount : nat;
  infoUsers : list (string * string * string * Z)
}.

(** [app.get('/api/room/:roomId')] of the second server: always
    [success: true]. *)
Definition getRoom (rid : string) (st : SecondServer.state) : roomInfo :=
  let roomUsers := SecondServer.getRoomUsers rid st in
  {| infoRoomId := rid;
     userCount := JsMap.size roomUsers;
     infoUsers :=
       map (fun kv => (fst kv, SecondServer.userName (snd kv),
                       SecondServer.userLanguage (snd kv),
                       SecondServer.joinedAt (snd kv))) roomUsers |}.

(** Every registered room has at least one member. *)
Definition populated (rs : JsMap.t (JsMap.t SecondServer.userInfo)) : Prop :=
  forall rid r, JsMap.get rid rs = Some r -> 1 <= JsMap.size r.

(** The socket events that change the state of the second server. *)
Inductive input :=
| JoinRoom (socketId roomId userName userLanguage randomName : string)
    (now : Z)
| ChangeLanguage (socketId language : string) (now : Z)
| Disconnect (socketId : string) (now : Z).

Definition step (i : input) (st : SecondServer.state) : SecondServer.state :=
  match i with
  | JoinRoom sid rid name lang rnd now =>
      snd (SecondServer.joinRoom sid rid name lang rnd now st)
  | ChangeLanguage sid lang now =>
      snd (SecondServer.changeLanguage sid lang now st)
  | Disconnect sid now => snd (SecondServer.disconnect sid now st)
  end.

End SecondServerApi.

(** ** Sessions and memberships of the first server *)

Module Membership.

(** The entry of socket [u] in room [rid], when the room exists and lists
    it. *)
Definition member (rs : JsMap.t FirstServer.room) (rid u : string)
  : option FirstServer.userInfo :=
  match JsMap.get rid rs with
  | Some r => JsMap.get u (FirstServer.users r)
  | None => None
  end.

(** The maps are well formed: no key twice in the registry, in a member
    map or in the session table. *)
Definition well_formed (st : FirstServer.state) : Prop :=
  JsMap.wf (FirstServer.rooms st)
  /\ (forall rid r,
         JsMap.get rid (FirstServer.rooms st) = Some r ->
         JsMap.wf (FirstServer.users r))
  /\ JsMap.wf (FirstServer.userSessions st).

(** Sessions and memberships agree: a session's socket is listed in the
    session's room under the session's name and language, and a listed
    socket has a session for that room. *)
Definition coherent (st : FirstServer.state) : Prop :=
  (forall u s,
      JsMap.get u (FirstServer.userSessions st) = Some s ->
      exists info,
        member (FirstServer.rooms st) (FirstServer.roomId s) u = Some info
        /\ FirstServer.userName info = FirstServer.sessionUserName s
        /\ FirstServer.userLanguage info = FirstServer.sessionUserLanguage s)
  /\ (forall rid u info,
         member (FirstServer.rooms st) rid u = Some info ->
         exists s,
           JsMap.get u (FirstServer.userSessions st) = Some s
           /\ FirstServer.roomId s = rid).

Definition run (inputs : list FirstServer.input) (st : FirstServer.state)
  : FirstServer.state :=
  fold_left (fun st i => FirstServer.step i st) inputs st.

(** Well-formedness of the registry alone. *)
Definition rooms_wf (rs : JsMap.t FirstServer.room) : Prop :=
  JsMap.wf rs
  /\ forall rid r, JsMap.get rid rs = Some r -> JsMap.wf (FirstServer.users r).

(** The registry after the second half of [join-room]: the room is created
    when absent and the member entry is set in it. *)
Definition entered (x rid : string) (info : FirstServer.userInfo) (now : Z)
    (rs1 : JsMap.t FirstServer.room) : JsMap.t FirstServer.room :=
  let rs2 :=
    if JsMap.has rid rs1 then rs1
    else JsMap.set rid
           {| FirstServer.id := rid; FirstServer.users := JsMap.empty;
              FirstServer.createdAt := now |} rs1 in
  match JsMap.get rid rs2 with
  | Some r =>
      JsMap.set rid
        (FirstServer.with_users r (JsMap.set x info (FirstServer.users r)))
        rs2
  | None => rs2
  end.

End Membership.

(** ** Where the loop stands, and who receives an emission *)

(** The world in which the loop of [forEach] runs the iteration of member
    [u]: the world left by the iterations of the members before it. *)
Fixpoint reaches {V E W : Type}
    (body : string -> V -> W -> list (action E) * W)
    (members : JsMap.t V) (w : W) (u : string) : option W :=
  match members with
  | [] => None
  | (userId, info) :: rest =>
      if String.eqb u userId then Some w
      else reaches body rest (snd (body userId info w)) u
  end.

(** The rooms of socket.io: [A x r] tells whether socket [x] is in room
    [r].  A socket is in the room named by its own id from its connection
    on, and in every room it joined and has not left. *)
Definition adapter := string -> string -> bool.

(** The sockets an emission is delivered to: [io.to(r)] reaches every
    socket in room [r], [socket.to(r)] every socket in [r] but the emitting
    one, [socket.emit] the socket itself. *)
Definition received_by {E : Type} (A : adapter) (u : string) (a : action E)
  : bool :=
  match a with
  | Emit (ToRoom r) _ => A u r
  | Emit (ToOthers r s) _ => A u r && negb (String.eqb u s)
  | Emit (ToSelf s) _ => String.eqb u s
  | _ => false
  end.

(** Number of events of a trace that socket [u] receives. *)
Definition deliveries {E : Type} (A : adapter) (u : string)
    (tr : list (action E)) : nat :=
  List.length (filter (received_by A u) tr).







(** ** The optimizer with everything that writes to its translation cache

    Besides [cacheTranslation], the constructor's preload writes to the
    map, through timers and without a capacity test, placeholder objects of
    another shape; and [translateSingle] records a latency sample. *)

Module Optimizer.

(** What the map holds: an entry of [cacheTranslation], or a placeholder
    [{text, translation, timestamp}] of the preload.  A placeholder has no
    [hitCount]: a lookup sets its [lastAccessed] and leaves [hitCount] NaN
    ([lastAccessed = Some t] here). *)
Inductive slot :=
| Cached (e : PerformanceOptimizer.entry)
| Placeholder (text translation : string) (timestamp : Z)
    (lastAccessed : option Z).

Definition slotTimestamp (s : slot) : Z :=
  match s with
  | Cached e => PerformanceOptimizer.timestamp e
  | Placeholder _ _ t _ => t
  end.

(** A timer set by [preloadTranslations] and not yet fired. *)
Record timer := {
  phrase : string;
  from : string;
  to : string
}.

Record optimizer := {
  translationCache : JsMap.t slot;
  maxCacheSize : nat;
  translationLatency : list Metrics.sample;
  pending : list timer
}.

Definition commonPairs : list (string * string) :=
  [("en", "es"); ("en", "fr"); ("es", "en"); ("fr", "en")].

Definition commonPhrases : list string :=
  ["Hello"; "Thank you"; "Please"; "Excuse me"; "How are you?";
   "Where is...?"; "I need help"; "Do you speak English?"].

(** [preloadTranslations]: one timer for each pair and phrase whose key is
    not in the cache when the loop runs. *)
Definition preloadTranslations (languagePairs : list (string * string))
    (phrases : list string) (o : optimizer) : optimizer :=
  let timers :=
    flat_map
      (fun pair =>
         flat_map
           (fun phrase =>
              if JsMap.has
                   (PerformanceOptimizer.cacheKey phrase (fst pair) (snd pair))
                   (translationCache o)
              then []
              else [{| phrase := phrase; from := fst pair; to := snd pair |}])
           phrases)
      languagePairs in
  {| translationCache := translationCache o;
     maxCacheSize := maxCacheSize o;
     translationLatency := translationLatency o;
     pending := pending o ++ timers |}.

(** The constructor with [init]: empty maps, the capacity of the device,
    and the preload of the common phrases. *)
Definition construct (isMobile : bool) : optimizer :=
  preloadTranslations commonPairs commonPhrases
    {| translationCache := JsMap.empty;
       maxCacheSize := PerformanceOptimizer.cacheSize isMobile;
       translationLatency := [];
       pending := [] |}.

(** The callback of the [i]-th pending timer, run at time [now]:
    [translationCache.set(cacheKey, {text, translation, timestamp})]. *)
Definition fire (i : nat) (now : Z) (o : optimizer) : optimizer :=
  match nth_error (pending o) i with
  | Some t =>
      {| translationCache :=
           JsMap.set
             (PerformanceOptimizer.cacheKey (phrase t) (from t) (to t))
             (Placeholder (phrase t) ("[" ++ to t ++ "] " ++ phrase t) now
                None)
             (translationCache o);
         maxCacheSize := maxCacheSize o;
         translationLatency := translationLatency o;
         pending := firstn i (pending o) ++ skipn (S i) (pending o) |}
  | None => o
  end.

Definition evictOldest (cache : JsMap.t slot) : JsMap.t slot :=
  match JsMap.first_key cache with
  | Some oldestKey => JsMap.delete oldestKey cache
  | None => cache
  end.

Definition cacheTranslation (now : Z)
    (originalText : string) (translatedText : jsval)
    (sourceLang targetLang : string) (o : optimizer) : optimizer :=
  let key := PerformanceOptimizer.cacheKey originalText sourceLang targetLang in
  let cache :=
    if maxCacheSize o <=? JsMap.size (translationCache o)
    then evictOldest (translationCache o)
    else translationCache o in
  {| translationCache :=
       JsMap.set key
         (Cached
            {| PerformanceOptimizer.originalText := originalText;
               PerformanceOptimizer.translatedText := translatedText;
               PerformanceOptimizer.sourceLang := sourceLang;
               PerformanceOptimizer.targetLang := targetLang;
               PerformanceOptimizer.timestamp := now;
               PerformanceOptimizer.hitCount := 0;
               PerformanceOptimizer.lastAccessed := None |}) cache;
     maxCacheSize := maxCacheSize o;
     translationLatency := translationLatency o;
     pending := pending o |}.

(** [cached.hitCount++; cached.lastAccessed = Date.now()] on either
    shape. *)
Definition touch (now : Z) (s : slot) : slot :=
  match s with
  | Cached e => Cached (PerformanceOptimizer.touch now e)
  | Placeholder text translation t _ =>
      Placeholder text translation t (Some now)
  end.

Definition getCachedTranslation (now : Z)
    (text sourceLang targetLang : string) (o : optimizer)
  : option slot * optimizer :=
  let key := PerformanceOptimizer.cacheKey text sourceLang targetLang in
  match JsMap.get key (translationCache o) with
  | Some cached =>
      let cached' := touch now cached in
      (Some cached',
       {| translationCache := JsMap.set key cached' (translationCache o);
          maxCacheSize := maxCacheSize o;
          translationLatency := translationLatency o;
          pending := pending o |})
  | None => (None, o)
  end.

(** The translation-cache loop of [cleanupCache]. *)
Definition cleanupCache (now : Z) (o : optimizer) : optimizer :=
  {| translationCache :=
       filter (fun kv =>
                 negb (PerformanceOptimizer.maxAge
                       <? now - slotTimestamp (snd kv))%Z)
              (translationCache o);
     maxCacheSize := maxCacheSize o;
     translationLatency := translationLatency o;
     pending := pending o |}.

(** The fields [translateSingle] reads off the object it found:
    [undefined] on a placeholder. *)
Definition originalOf (s : slot) : jsval :=
  match s with
  | Cached e => JStr (PerformanceOptimizer.originalText e)
  | Placeholder _ _ _ _ => JUndefined
  end.

Definition translatedOf (s : slot) : jsval :=
  match s with
  | Cached e => PerformanceOptimizer.translatedText e
  | Placeholder _ _ _ _ => JUndefined
  end.

Inductive single_result :=
| FromCache (originalText translatedText : jsval)
| FromServer (r : PerformanceOptimizer.reply)
| SingleError (message : string).

(** The readings of [Date.now()] during one [translateSingle], in the
    order they are taken. *)
Record readings := {
  lookupAt : Z;
  startTime : Z;
  repliedAt : Z;
  sampledAt : Z;
  storedAt : Z
}.

(** [translateSingle], with the latency sample it pushes once the reply is
    parsed, before it looks at [result.success]. *)
Definition translateSingle (B : PerformanceOptimizer.Backend) (t : readings)
    (req : PerformanceOptimizer.request) (o : optimizer)
    (w : PerformanceOptimizer.backend_world B)
  : single_result * list PerformanceOptimizer.request * optimizer
    * PerformanceOptimizer.backend_world B :=
  match getCachedTranslation (lookupAt t) (PerformanceOptimizer.text req)
          (PerformanceOptimizer.reqSourceLang req)
          (PerformanceOptimizer.reqTargetLang req) o with
  | (Some cached, o1) =>
      (FromCache (originalOf cached) (translatedOf cached), [], o1, w)
  | (None, o1) =>
      match PerformanceOptimizer.post_translate B req w with
      | (PerformanceOptimizer.Answered result, w1) =>
          let latency := (repliedAt t - startTime t)%Z in
          let o2 :=
            {| translationCache := translationCache o1;
               maxCacheSize := maxCacheSize o1;
               translationLatency :=
                 translationLatency o1 ++
                 [Metrics.LatencySample (sampledAt t) latency
                    (String.length (PerformanceOptimizer.text req))];
               pending := pending o1 |} in
          let o3 :=
            if truthy (PerformanceOptimizer.success result)
            then cacheTranslation (storedAt t) (PerformanceOptimizer.text req)
                   (PerformanceOptimizer.replyText result)
                   (PerformanceOptimizer.reqSourceLang req)
                   (PerformanceOptimizer.reqTargetLang req) o2
            else o2 in
          (FromServer result, [req], o3, w1)
      | (PerformanceOptimizer.FetchFailed message, w1) =>
          (SingleError ("Translation failed: " ++ message), [req], o1, w1)
      end
  end.

(** [destroy]: the translation cache is cleared (the audio cache too); the
    preload timers are not. *)
Definition destroy (o : optimizer) : optimizer :=
  {| translationCache := JsMap.empty;
     maxCacheSize := maxCacheSize o;
     translationLatency := translationLatency o;
     pending := pending o |}.

(** What can happen to the cache: the three operations of the contract,
    the firing of a pending preload timer, and [destroy]. *)
Inductive cache_op :=
| Store (now : Z) (text : string) (translated : jsval) (src tgt : string)
| Lookup (now : Z) (text src tgt : string)
| Sweep (now : Z)
| Fire (i : nat) (now : Z)
| Destroy.

Definition run_op (op : cache_op) (o : optimizer) : optimizer :=
  match op with
  | Store now text translated src tgt =>
      cacheTranslation now text translated src tgt o
  | Lookup now text src tgt => snd (getCachedTranslation now text src tgt o)
  | Sweep now => cleanupCache now o
  | Fire i now => fire i now o
  | Destroy => destroy o
  end.

Definition run_ops (ops : list cache_op) (o : optimizer) : optimizer :=
  fold_left (fun o op => run_op op o) ops o.

Definition is_fire (op : cache_op) : bool :=
  match op with
  | Fire _ _ => true
  | _ => false
  end.

(** The operations that remove no entry but an evicted one and write none
    but a stored one: stores and lookups. *)
Definition is_access (op : cache_op) : bool :=
  match op with
  | Store _ _ _ _ _ | Lookup _ _ _ _ => true
  | _ => false
  end.

(** The keys written by the [Store] operations of a sequence, in order. *)
Fixpoint stored_keys (ops : list cache_op) : list string :=
  match ops with
  | [] => []
  | Store _ text _ src tgt :: r =>
      PerformanceOptimizer.cacheKey text src tgt :: stored_keys r
  | _ :: r => stored_keys r
  end.

(** A cache that holds entries of [cacheTranslation] only, seen as a
    cache of the optimizer. *)
Definition cached_only (cache : JsMap.t PerformanceOptimizer.entry)
  : JsMap.t slot :=
  map (fun kv => (fst kv, Cached (snd kv))) cache.

Definition embed (latency : list Metrics.sample) (timers : list timer)
    (o : PerformanceOptimizer.optimizer) : optimizer :=
  {| translationCache :=
       cached_only (PerformanceOptimizer.translationCache o);
     maxCacheSize := PerformanceOptimizer.maxCacheSize o;
     translationLatency := latency;
     pending := timers |}.

(** [n] stores of distinct texts, from English to Spanish. *)
Fixpoint distinct_stores (n : nat) : list cache_op :=
  match n with
  | 0 => []
  | S k =>
      distinct_stores k ++
      [Store (Z.of_nat k) (String.concat "" (repeat "a" k)) (JStr "x")
         "en" "es"]
  end.

End Optimizer.

(** ** Further scenarios *)

Module Cases.

(** An endpoint that cannot be reached. *)
Definition offline : PerformanceOptimizer.Backend :=
  {| PerformanceOptimizer.backend_world := nat;
     PerformanceOptimizer.post_translate := fun _ w =>
       (PerformanceOptimizer.FetchFailed "Failed to fetch", S w) |}.

Definition hello : PerformanceOptimizer.request :=
  {| PerformanceOptimizer.text := "Hello";
     PerformanceOptimizer.reqSourceLang := "en";
     PerformanceOptimizer.reqTargetLang := "es" |}.

(** The members of a room that cost backend calls for an utterance in
    [sourceLanguage] from [socketId]: everyone but the sender whose
    language is another one. *)
Definition translated_for (socketId sourceLanguage : string)
    (members : JsMap.t FirstServer.userInfo) : JsMap.t FirstServer.userInfo :=
  filter (fun kv =>
            negb (String.eqb (fst kv) socketId)
            && negb (String.eqb (FirstServer.userLanguage (snd kv))
                       sourceLanguage))
         members.

(** Number of backend calls in a trace. *)
Definition invocations {E : Type} (tr : list (action E)) : nat :=
  List.length (filter is_invoke tr).










(** An endpoint that answers without success. *)
Definition refusing : PerformanceOptimizer.Backend :=
  {| PerformanceOptimizer.backend_world := nat;
     PerformanceOptimizer.post_translate := fun _ w =>
       (PerformanceOptimizer.Answered
          {| PerformanceOptimizer.success := JBool false;
             PerformanceOptimizer.replyText := JUndefined |}, S w) |}.

(** The readings of the clock during one translation. *)
Definition ticks : Optimizer.readings :=
  {| Optimizer.lookupAt := 10; Optimizer.startTime := 11;
     Optimizer.repliedAt := 15; Optimizer.sampledAt := 16;
     Optimizer.storedAt := 17 |}.

(** A mobile optimizer after 51 stores of distinct texts, and then after
    its 32 preload timers have fired as well. *)
Definition stored51 : Optimizer.optimizer :=
  Optimizer.run_ops (Optimizer.distinct_stores 51) (Optimizer.construct true).

Definition preloaded : Optimizer.optimizer :=
  Optimizer.run_ops (repeat (Optimizer.Fire 0 60) 32) stored51.

End Cases.

(** * Properties *)

(** ** Laws of the insertion-ordered map *)

Section JsMapLaws.
Context {V : Type}.
Implicit Types (m : JsMap.t V) (k : string) (v : V).

Lemma get_set_same k v m : JsMap.get k (JsMap.set k v m) = Some v.
Proof.
  induction m as [|[k' v'] r IH]; simpl.
  - now rewrite String.eqb_refl.
  - destruct (String.eqb_spec k k') as [->|Hne]; simpl.
    + now rewrite String.eqb_refl.
    + destruct (String.eqb_spec k k'); [contradiction|exact IH].
Qed.

Lemma get_set_other k k' v m :
  k <> k' -> JsMap.get k' (JsMap.set k v m) = JsMap.get k' m.
Proof.
  intros Hne. induction m as [|[k1 v1] r IH]; simpl.
  - destruct (String.eqb_spec k' k); [congruence|reflexivity].
  - destruct (String.eqb_spec k k1) as [->|Hk]; simpl.
    + destruct (String.eqb_spec k' k1); [congruence|reflexivity].
    + destruct (String.eqb_spec k' k1); [reflexivity|exact IH].
Qed.

Lemma get_delete_other k k' m :
  k <> k' -> JsMap.get k' (JsMap.delete k m) = JsMap.get k' m.
Proof.
  intros Hne. induction m as [|[k1 v1] r IH]; simpl; [reflexivity|].
  destruct (String.eqb_spec k k1) as [->|Hk]; simpl.
  - destruct (String.eqb_spec k' k1); [congruence|reflexivity].
  - destruct (String.eqb_spec k' k1); [reflexivity|exact IH].
Qed.

Lemma get_none_not_in k m :
  JsMap.get k m = None <-> ~ In k (JsMap.keys m).
Proof.
  induction m as [|[k1 v1] r IH]; simpl.
  - tauto.
  - destruct (String.eqb_spec k k1) as [->|Hk].
    + split; [discriminate|intros H; exfalso; apply H; now left].
    + rewrite IH. split; [intros H [E|I]; [congruence|tauto]|tauto].
Qed.

Lemma existsb_eqb_in k (l : list string) :
  existsb (String.eqb k) l = true <-> In k l.
Proof.
  rewrite existsb_exists. split.
  - intros [x [Hin Heq]]. apply String.eqb_eq in Heq. now subst.
  - intros Hin. exists k. split; [exact Hin|apply String.eqb_refl].
Qed.

Lemma nodupb_NoDup (l : list string) :
  JsMap.nodupb l = true <-> NoDup l.
Proof.
  induction l as [|k r IH]; simpl.
  - split; [constructor|reflexivity].
  - rewrite andb_true_iff, negb_true_iff, IH. split.
    + intros [Hn Hd]. constructor; [|exact Hd].
      rewrite <- existsb_eqb_in. congruence.
    + intros Hd. inversion Hd as [|? ? Hn Hr]; subst. split; [|exact Hr].
      destruct (existsb (String.eqb k) r) eqn:E; [|reflexivity].
      apply existsb_eqb_in in E. contradiction.
Qed.

Lemma wf_NoDup m : JsMap.wf m <-> NoDup (JsMap.keys m).
Proof. apply nodupb_NoDup. Qed.

Lemma keys_delete_subset k k' m :
  In k' (JsMap.keys (JsMap.delete k m)) -> In k' (JsMap.keys m).
Proof.
  induction m as [|[k1 v1] r IH]; simpl; [tauto|].
  destruct (String.eqb_spec k k1); simpl; tauto.
Qed.

Lemma get_delete_same k m :
  JsMap.wf m -> JsMap.get k (JsMap.delete k m) = None.
Proof.
  rewrite wf_NoDup. induction m as [|[k1 v1] r IH]; simpl; intros Hd.
  - reflexivity.
  - inversion Hd as [|? ? Hn Hr]; subst.
    destruct (String.eqb_spec k k1) as [->|Hk]; simpl.
    + now apply get_none_not_in.
    + destruct (String.eqb_spec k k1); [contradiction|now apply IH].
Qed.

Lemma wf_delete k m : JsMap.wf m -> JsMap.wf (JsMap.delete k m).
Proof.
  rewrite !wf_NoDup. induction m as [|[k1 v1] r IH]; simpl; intros Hd.
  - constructor.
  - inversion Hd as [|? ? Hn Hr]; subst.
    destruct (String.eqb_spec k k1); simpl; [exact Hr|].
    constructor; [|now apply IH].
    intros Hin. apply Hn. eapply keys_delete_subset. exact Hin.
Qed.

Lemma keys_set k v m :
  JsMap.keys (JsMap.set k v m) =
  if JsMap.has k m then JsMap.keys m else JsMap.keys m ++ [k].
Proof.
  unfold JsMap.has. induction m as [|[k1 v1] r IH]; simpl; [reflexivity|].
  destruct (String.eqb_spec k k1) as [->|Hk]; simpl; [reflexivity|].
  rewrite IH. now destruct (JsMap.get k r).
Qed.

Lemma has_true_in k m : JsMap.has k m = true <-> In k (JsMap.keys m).
Proof.
  unfold JsMap.has. destruct (JsMap.get k m) eqn:E.
  - split; [intros _|reflexivity].
    destruct (in_dec string_dec k (JsMap.keys m)) as [Hin|Hn]; [exact Hin|].
    apply get_none_not_in in Hn. congruence.
  - apply get_none_not_in in E. split; [discriminate|contradiction].
Qed.

Lemma wf_set k v m : JsMap.wf m -> JsMap.wf (JsMap.set k v m).
Proof.
  rewrite !wf_NoDup, keys_set. intros Hd.
  destruct (JsMap.has k m) eqn:E; [exact Hd|].
  apply NoDup_app; [exact Hd|repeat constructor; simpl; tauto|].
  intros x Hx [<-|[]]. apply has_true_in in Hx. congruence.
Qed.

Lemma size_set k v m :
  JsMap.size (JsMap.set k v m) =
  if JsMap.has k m then JsMap.size m else S (JsMap.size m).
Proof.
  unfold JsMap.size. rewrite <- !(length_map fst).
  fold (JsMap.keys (JsMap.set k v m)). fold (JsMap.keys m).
  rewrite keys_set. destruct (JsMap.has k m); [reflexivity|].
  rewrite length_app. simpl. lia.
Qed.

Lemma size_set_pos k v m : 1 <= JsMap.size (JsMap.set k v m).
Proof.
  destruct m as [|[k1 v1] r]; simpl; [lia|].
  destruct (String.eqb k k1); simpl; lia.
Qed.

Lemma size_delete k m :
  JsMap.size (JsMap.delete k m) =
  if JsMap.has k m then JsMap.size m - 1 else JsMap.size m.
Proof.
  unfold JsMap.has, JsMap.size.
  induction m as [|[k1 v1] r IH]; simpl; [reflexivity|].
  destruct (String.eqb_spec k k1) as [->|Hk]; simpl; [lia|].
  rewrite IH. destruct (JsMap.get k r) eqn:E; [|reflexivity].
  destruct r; [discriminate|simpl; lia].
Qed.

Lemma size_zero_empty m : JsMap.size m = 0 -> m = [].
Proof. destruct m; [reflexivity|discriminate]. Qed.

Lemma get_in k v m : JsMap.get k m = Some v -> In (k, v) m.
Proof.
  induction m as [|[k1 v1] r IH]; simpl; [discriminate|].
  destruct (String.eqb_spec k k1) as [->|Hk].
  - intros [= ->]. now left.
  - intros H. right. now apply IH.
Qed.

Lemma in_get k v m : JsMap.wf m -> In (k, v) m -> JsMap.get k m = Some v.
Proof.
  rewrite wf_NoDup. induction m as [|[k1 v1] r IH]; simpl; [tauto|].
  intros Hd. inversion Hd as [|? ? Hn Hr]; subst.
  intros [[= -> ->]|Hin].
  - now rewrite String.eqb_refl.
  - destruct (String.eqb_spec k k1) as [->|Hk]; [|now apply IH].
    exfalso. apply Hn. change k1 with (fst (k1, v)). now apply in_map.
Qed.
End JsMapLaws.

(** ** The translation cache *)

Section CacheLaws.
Import PerformanceOptimizer.

Lemma evictOldest_cons k0 (e0 : entry) rest :
  evictOldest ((k0, e0) :: rest) = rest.
Proof. unfold evictOldest. simpl. now rewrite String.eqb_refl. Qed.

Lemma cacheTranslation_max now text tr src tgt o :
  maxCacheSize (cacheTranslation now text tr src tgt o) = maxCacheSize o.
Proof. reflexivity. Qed.

Lemma run_op_max op o : maxCacheSize (run_op op o) = maxCacheSize o.
Proof.
  destruct op; simpl; try reflexivity.
  unfold getCachedTranslation.
  now destruct (JsMap.get _ _).
Qed.

Lemma cacheTranslation_size now text tr src tgt o :
  1 <= maxCacheSize o ->
  JsMap.size (translationCache o) <= maxCacheSize o ->
  JsMap.size (translationCache (cacheTranslation now text tr src tgt o))
    <= maxCacheSize o.
Proof.
  intros Hpos Hle. unfold cacheTranslation. simpl.
  destruct (Nat.leb_spec (maxCacheSize o) (JsMap.size (translationCache o)))
    as [Hfull|Hroom].
  - destruct (translationCache o) as [|[k0 e0] rest] eqn:E.
    + simpl in Hfull. lia.
    + rewrite evictOldest_cons, size_set.
      unfold JsMap.size in *. simpl in *.
      destruct (JsMap.has _ rest); lia.
  - rewrite size_set. destruct (JsMap.has _ _); lia.
Qed.

Lemma getCachedTranslation_keys now text src tgt o :
  JsMap.keys (translationCache (snd (getCachedTranslation now text src tgt o)))
  = JsMap.keys (translationCache o).
Proof.
  unfold getCachedTranslation.
  destruct (JsMap.get _ _) eqn:E; simpl; [|reflexivity].
  rewrite keys_set. unfold JsMap.has. now rewrite E.
Qed.

Lemma size_keys {V} (m : JsMap.t V) :
  JsMap.size m = List.length (JsMap.keys m).
Proof. unfold JsMap.size, JsMap.keys. now rewrite length_map. Qed.

Lemma run_op_size op o :
  1 <= maxCacheSize o ->
  JsMap.size (translationCache o) <= maxCacheSize o ->
  JsMap.size (translationCache (run_op op o)) <= maxCacheSize o.
Proof.
  intros Hpos Hle. destruct op as [now text tr src tgt|now text src tgt|now];
    simpl.
  - now apply cacheTranslation_size.
  - now rewrite size_keys, getCachedTranslation_keys, <- size_keys.
  - unfold JsMap.size in *.
    etransitivity; [apply filter_length_le|exact Hle].
Qed.

Lemma run_ops_size ops : forall o,
  1 <= maxCacheSize o ->
  JsMap.size (translationCache o) <= maxCacheSize o ->
  JsMap.size (translationCache (run_ops ops o)) <= maxCacheSize o /\
  maxCacheSize (run_ops ops o) = maxCacheSize o.
Proof.
  unfold run_ops.
  induction ops as [|op ops IH]; intros o Hpos Hle; simpl; [tauto|].
  pose proof (run_op_max op o) as Hmax.
  pose proof (run_op_size op o Hpos Hle) as Hsz.
  destruct (IH (run_op op o)) as [H1 H2]; rewrite ?Hmax; try assumption.
  rewrite H2, Hmax in *. tauto.
Qed.

Lemma newest_all {A} n (l : list A) : List.length l <= n -> newest n l = l.
Proof.
  intros H. unfold newest. replace (List.length l - n) with 0 by lia.
  reflexivity.
Qed.

(** Keys after a store of a key that is not cached. *)
Lemma cacheTranslation_fresh_keys now text tr src tgt o :
  JsMap.has (cacheKey text src tgt) (translationCache o) = false ->
  JsMap.keys (translationCache (cacheTranslation now text tr src tgt o)) =
  (if maxCacheSize o <=? JsMap.size (translationCache o)
   then tl (JsMap.keys (translationCache o))
   else JsMap.keys (translationCache o)) ++ [cacheKey text src tgt].
Proof.
  intros Hfresh. unfold cacheTranslation. simpl.
  destruct (maxCacheSize o <=? JsMap.size (translationCache o)).
  - destruct (translationCache o) as [|[k0 e0] rest] eqn:E.
    + reflexivity.
    + rewrite evictOldest_cons, keys_set. simpl.
      unfold JsMap.has in *. simpl in Hfresh.
      destruct (String.eqb _ k0); [discriminate|].
      now destruct (JsMap.get _ rest).
  - rewrite keys_set. now rewrite Hfresh.
Qed.

Lemma stores_keep_newest ops : forall o,
  1 <= maxCacheSize o ->
  JsMap.size (translationCache o) <= maxCacheSize o ->
  forallb (fun op => negb (is_sweep op)) ops = true ->
  NoDup (JsMap.keys (translationCache o) ++ stored_keys ops) ->
  JsMap.keys (translationCache (run_ops ops o)) =
  newest (maxCacheSize o)
    (JsMap.keys (translationCache o) ++ stored_keys ops).
Proof.
  unfold run_ops.
  induction ops as [|op ops IH]; intros o Hpos Hle Hns Hnd; simpl.
  - rewrite app_nil_r, newest_all; [reflexivity|].
    now rewrite <- size_keys.
  - simpl in Hns. apply andb_true_iff in Hns as [Hop Hns].
    assert (Hsz := run_op_size op o Hpos Hle).
    assert (Hmax := run_op_max op o).
    destruct op as [now text tr src tgt|now text src tgt|now];
      [| |discriminate].
    + simpl in Hnd.
      assert (Hfresh :
        JsMap.has (cacheKey text src tgt) (translationCache o) = false).
      { destruct (JsMap.has _ _) eqn:E; [|reflexivity].
        apply has_true_in in E. apply NoDup_remove_2 in Hnd.
        exfalso. apply Hnd. apply in_or_app. now left. }
      pose proof (cacheTranslation_fresh_keys now text tr src tgt o Hfresh)
        as Hk.
      rewrite IH; rewrite ?Hmax; try assumption.
      * simpl run_op. rewrite Hk.
        destruct (Nat.leb_spec (maxCacheSize o)
                    (JsMap.size (translationCache o))) as [Hfull|Hroom].
        -- rewrite size_keys in Hfull, Hle.
           destruct (JsMap.keys (translationCache o)) as [|k0 t] eqn:E.
           ++ simpl in Hfull. lia.
           ++ simpl tl. unfold newest. rewrite <- !app_assoc.
              rewrite <- !app_comm_cons. change ([?x] ++ ?y) with (x :: y).
              set (L := t ++ cacheKey text src tgt :: stored_keys ops).
              assert (HL : maxCacheSize o <= List.length L).
              { unfold L. rewrite length_app. simpl in *. lia. }
              change (List.length (k0 :: L)) with (S (List.length L)).
              replace (S (List.length L) - maxCacheSize o)
                with (S (List.length L - maxCacheSize o)) by lia.
              reflexivity.
        -- now rewrite <- app_assoc.
      * simpl run_op. rewrite Hk.
        destruct (maxCacheSize o <=? JsMap.size (translationCache o)).
        -- destruct (JsMap.keys (translationCache o)) as [|k0 t] eqn:E.
           ++ simpl. exact Hnd.
           ++ simpl tl. rewrite <- app_assoc. simpl.
              simpl in Hnd. now inversion Hnd.
        -- now rewrite <- app_assoc.
    + simpl in Hnd. simpl run_op in *.
      rewrite IH; rewrite ?Hmax, ?getCachedTranslation_keys;
        try assumption; reflexivity.
Qed.
End CacheLaws.

Section CacheClaims.
Import PerformanceOptimizer.

(** C10.  A store into a cache that holds at least [maxCacheSize] entries
  first deletes the oldest-inserted entry, whatever the key stored: the
  new cache is the old one without its first entry, with the key set in
  it.  When the key stored is already cached further down, the store
  cannot grow the cache, and yet the oldest entry, which has another key,
  is gone and the cache is one entry smaller. *)
Theorem store_at_capacity_evicts_oldest_even_on_overwrite :
forall now text tr src tgt o k0 e0 rest,
  translationCache o = (k0, e0) :: rest ->
  maxCacheSize o <= JsMap.size (translationCache o) ->
  let key := cacheKey text src tgt in
  let o' := cacheTranslation now text tr src tgt o in
  translationCache o' =
    JsMap.set key
      {| originalText := text; translatedText := tr; sourceLang := src;
         targetLang := tgt; timestamp := now; hitCount := 0;
         lastAccessed := None |} rest
  /\ (JsMap.wf (translationCache o) ->
      JsMap.has key rest = true ->
      key <> k0
      /\ JsMap.get k0 (translationCache o') = None
      /\ JsMap.size (translationCache o') =
         JsMap.size (translationCache o) - 1).
Proof.
intros now text tr src tgt o k0 e0 rest Hc Hfull key o'.
assert (Heq : translationCache o' =
              JsMap.set key
                {| originalText := text; translatedText := tr;
                   sourceLang := src; targetLang := tgt; timestamp := now;
                   hitCount := 0; lastAccessed := None |} rest).
{ unfold o', cacheTranslation. simpl.
  apply Nat.leb_le in Hfull. rewrite Hfull, Hc.
  now rewrite evictOldest_cons. }
split; [exact Heq|].
intros Hwf Hin. rewrite Hc in Hwf. apply wf_NoDup in Hwf. simpl in Hwf.
inversion Hwf as [|? ? Hn Hr]; subst.
assert (Hne : key <> k0).
{ intros ->. apply Hn. now apply has_true_in. }
split; [exact Hne|]. rewrite Heq. split.
- rewrite get_set_other by exact Hne. now apply get_none_not_in.
- rewrite size_set, Hin, Hc. unfold JsMap.size. simpl. lia.
Qed.

(** C8 (amended).  A store with empty text is not a no-op: whatever the
  languages and the cache, the entry stored under the key
  [_<source>_<target>] is afterwards the one just written, with the empty
  original text. *)
Theorem store_of_empty_text_inserts :
forall now tr src tgt o,
  cacheKey "" src tgt = ("_" ++ src ++ "_" ++ tgt)%string
  /\ JsMap.get ("_" ++ src ++ "_" ++ tgt)%string
       (translationCache (cacheTranslation now "" tr src tgt o))
     = Some {| originalText := ""; translatedText := tr; sourceLang := src;
               targetLang := tgt; timestamp := now; hitCount := 0;
               lastAccessed := None |}.
Proof.
intros now tr src tgt o. split; [reflexivity|].
unfold cacheTranslation. simpl. apply get_set_same.
Qed.
End CacheClaims.

(** *** Concrete runs of the cache *)

Lemma store_at_capacity_evicts_oldest_even_on_overwrite_witness :
  JsMap.keys (PerformanceOptimizer.translationCache
     (PerformanceOptimizer.cacheTranslation 3 "Please" (JStr "Por favor")
        "en" "es" Scenario.full_cache)) = ["Please_en_es"]
  /\ JsMap.get "Hello_en_es" (PerformanceOptimizer.translationCache
       (PerformanceOptimizer.cacheTranslation 3 "Please" (JStr "Por favor")
          "en" "es" Scenario.full_cache)) = None.
Proof.
  destruct (store_at_capacity_evicts_oldest_even_on_overwrite
              3%Z "Please" (JStr "Por favor") "en" "es" Scenario.full_cache
              _ _ _ eq_refl ltac:(simpl; lia)) as [Heq Hrest].
  destruct (Hrest eq_refl eq_refl) as [_ [Hgone _]].
  split; [now rewrite Heq|exact Hgone].
Defined.

(** C8, as stated, fails: storing the empty text changes the cache. *)
Lemma store_of_empty_text_is_not_a_noop :
  PerformanceOptimizer.cacheTranslation 1 "" (JStr "") "en" "es"
    (PerformanceOptimizer.newOptimizer false)
  <> PerformanceOptimizer.newOptimizer false
  /\ JsMap.has "_en_es"
       (PerformanceOptimizer.translationCache
          (PerformanceOptimizer.cacheTranslation 1 "" (JStr "") "en" "es"
             (PerformanceOptimizer.newOptimizer false))) = true.
Proof. split; [discriminate|reflexivity]. Qed.

(** ** The translation cache with its preload *)

Section OptimizerLaws.
Import Optimizer.

Lemma slots_evictOldest_cons k0 (e0 : slot) rest :
  evictOldest ((k0, e0) :: rest) = rest.
Proof. unfold evictOldest. simpl. now rewrite String.eqb_refl. Qed.

Lemma op_max op o : maxCacheSize (run_op op o) = maxCacheSize o.
Proof.
  destruct op; simpl; try reflexivity.
  - unfold getCachedTranslation. now destruct (JsMap.get _ _).
  - unfold fire. now destruct (nth_error _ _).
Qed.

Lemma ops_max ops : forall o,
  maxCacheSize (run_ops ops o) = maxCacheSize o.
Proof.
  unfold run_ops. induction ops as [|op ops IH]; intros o; simpl;
    [reflexivity|].
  now rewrite IH, op_max.
Qed.

(** A store below capacity adds at most one entry; a store at or above
    capacity adds none. *)
Lemma store_size now text tr src tgt o :
  1 <= maxCacheSize o ->
  JsMap.size (translationCache (cacheTranslation now text tr src tgt o))
  <= Nat.max (maxCacheSize o) (JsMap.size (translationCache o)).
Proof.
  intros Hpos. unfold cacheTranslation. simpl.
  destruct (Nat.leb_spec (maxCacheSize o) (JsMap.size (translationCache o)))
    as [Hfull|Hroom].
  - destruct (translationCache o) as [|[k0 e0] rest] eqn:E.
    + simpl in Hfull. lia.
    + rewrite slots_evictOldest_cons, size_set.
      unfold JsMap.size in *. simpl in *.
      destruct (JsMap.has _ rest); lia.
  - rewrite size_set. destruct (JsMap.has _ _); lia.
Qed.

Lemma lookup_keys now text src tgt o :
  JsMap.keys (translationCache (snd (getCachedTranslation now text src tgt o)))
  = JsMap.keys (translationCache o).
Proof.
  unfold getCachedTranslation.
  destruct (JsMap.get _ _) eqn:E; simpl; [|reflexivity].
  rewrite keys_set. unfold JsMap.has. now rewrite E.
Qed.

Lemma lookup_pending now text src tgt o :
  pending (snd (getCachedTranslation now text src tgt o)) = pending o.
Proof.
  unfold getCachedTranslation. now destruct (JsMap.get _ _).
Qed.

(** A timer that fires writes one entry and is no longer pending. *)
Lemma fire_size i now o :
  JsMap.size (translationCache (fire i now o))
  <= S (JsMap.size (translationCache o))
  /\ JsMap.size (translationCache (fire i now o))
     + List.length (pending (fire i now o))
     <= JsMap.size (translationCache o) + List.length (pending o)
  /\ List.length (pending (fire i now o)) <= List.length (pending o).
Proof.
  unfold fire. destruct (nth_error (pending o) i) as [t|] eqn:E.
  - assert (Hi : i < List.length (pending o)).
    { apply nth_error_Some. congruence. }
    cbn [translationCache pending].
    rewrite size_set, length_app, length_firstn, length_skipn.
    destruct (JsMap.has _ _); lia.
  - lia.
Qed.

Lemma op_size op o f :
  1 <= maxCacheSize o ->
  JsMap.size (translationCache o) <= maxCacheSize o + f ->
  JsMap.size (translationCache (run_op op o))
  <= maxCacheSize o + f + (if is_fire op then 1 else 0).
Proof.
  intros Hpos Hle.
  destruct op as [now text tr src tgt|now text src tgt|now|i now|];
    cbn [run_op is_fire].
  - pose proof (store_size now text tr src tgt o Hpos). lia.
  - rewrite size_keys, lookup_keys, <- size_keys. lia.
  - unfold cleanupCache. cbn [translationCache]. unfold JsMap.size in *.
    pose proof (filter_length_le
                  (fun kv : string * slot =>
                     negb (PerformanceOptimizer.maxAge
                           <? now - slotTimestamp (snd kv))%Z)
                  (translationCache o)). lia.
  - pose proof (fire_size i now o). lia.
  - simpl. lia.
Qed.

Lemma ops_size ops : forall o f,
  1 <= maxCacheSize o ->
  JsMap.size (translationCache o) <= maxCacheSize o + f ->
  JsMap.size (translationCache (run_ops ops o))
  <= maxCacheSize o + f + List.length (filter is_fire ops).
Proof.
  unfold run_ops.
  induction ops as [|op ops IH]; intros o f Hpos Hle; simpl; [lia|].
  pose proof (op_max op o) as Hmax.
  pose proof (op_size op o f Hpos Hle) as Hsz.
  specialize (IH (run_op op o) (f + if is_fire op then 1 else 0)).
  rewrite Hmax in IH.
  destruct (is_fire op); simpl in *; lia.
Qed.

(** With [c] timers set, the entries and the timers still pending are
    never more than the capacity and [c]. *)
Lemma op_budget op o c :
  1 <= maxCacheSize o ->
  JsMap.size (translationCache o) + List.length (pending o)
    <= maxCacheSize o + c ->
  List.length (pending o) <= c ->
  JsMap.size (translationCache (run_op op o))
    + List.length (pending (run_op op o)) <= maxCacheSize o + c
  /\ List.length (pending (run_op op o)) <= c.
Proof.
  intros Hpos Hle Hp.
  destruct op as [now text tr src tgt|now text src tgt|now|i now|];
    cbn [run_op].
  - pose proof (store_size now text tr src tgt o Hpos).
    unfold cacheTranslation at 2 3. cbn [pending]. lia.
  - rewrite size_keys, lookup_keys, <- size_keys, lookup_pending. lia.
  - unfold cleanupCache. cbn [translationCache pending].
    unfold JsMap.size in *.
    pose proof (filter_length_le
                  (fun kv : string * slot =>
                     negb (PerformanceOptimizer.maxAge
                           <? now - slotTimestamp (snd kv))%Z)
                  (translationCache o)). lia.
  - pose proof (fire_size i now o). lia.
  - simpl. lia.
Qed.

Lemma ops_budget ops : forall o c,
  1 <= maxCacheSize o ->
  JsMap.size (translationCache o) + List.length (pending o)
    <= maxCacheSize o + c ->
  List.length (pending o) <= c ->
  JsMap.size (translationCache (run_ops ops o))
    + List.length (pending (run_ops ops o)) <= maxCacheSize o + c.
Proof.
  unfold run_ops.
  induction ops as [|op ops IH]; intros o c Hpos Hle Hp; simpl; [lia|].
  pose proof (op_max op o) as Hmax.
  destruct (op_budget op o c Hpos Hle Hp) as [H1 H2].
  specialize (IH (run_op op o) c). rewrite Hmax in IH. now apply IH.
Qed.

(** Keys after a store of a key that is not cached. *)
Lemma store_fresh_keys now text tr src tgt o :
  JsMap.has (PerformanceOptimizer.cacheKey text src tgt) (translationCache o)
    = false ->
  JsMap.keys (translationCache (cacheTranslation now text tr src tgt o)) =
  (if maxCacheSize o <=? JsMap.size (translationCache o)
   then tl (JsMap.keys (translationCache o))
   else JsMap.keys (translationCache o))
  ++ [PerformanceOptimizer.cacheKey text src tgt].
Proof.
  intros Hfresh. unfold cacheTranslation. simpl.
  destruct (maxCacheSize o <=? JsMap.size (translationCache o)).
  - destruct (translationCache o) as [|[k0 e0] rest] eqn:E.
    + reflexivity.
    + rewrite slots_evictOldest_cons, keys_set. simpl.
      unfold JsMap.has in *. simpl in Hfresh.
      destruct (String.eqb _ k0); [discriminate|].
      now destruct (JsMap.get _ rest).
  - rewrite keys_set. now rewrite Hfresh.
Qed.

Lemma op_size_within op o :
  is_fire op = false ->
  1 <= maxCacheSize o ->
  JsMap.size (translationCache o) <= maxCacheSize o ->
  JsMap.size (translationCache (run_op op o)) <= maxCacheSize o.
Proof.
  intros Hnf Hpos Hle.
  pose proof (op_size op o 0 Hpos) as H. rewrite Hnf in H. lia.
Qed.

Lemma is_access_not_fire op : is_access op = true -> is_fire op = false.
Proof. now destruct op. Qed.

Lemma stores_newest ops : forall o,
  1 <= maxCacheSize o ->
  JsMap.size (translationCache o) <= maxCacheSize o ->
  forallb is_access ops = true ->
  NoDup (JsMap.keys (translationCache o) ++ stored_keys ops) ->
  JsMap.keys (translationCache (run_ops ops o)) =
  PerformanceOptimizer.newest (maxCacheSize o)
    (JsMap.keys (translationCache o) ++ stored_keys ops).
Proof.
  unfold run_ops.
  induction ops as [|op ops IH]; intros o Hpos Hle Hns Hnd; simpl.
  - rewrite app_nil_r, newest_all; [reflexivity|].
    now rewrite <- size_keys.
  - simpl in Hns. apply andb_true_iff in Hns as [Hop Hns].
    assert (Hsz := op_size_within op o (is_access_not_fire op Hop) Hpos Hle).
    assert (Hmax := op_max op o).
    destruct op as [now text tr src tgt|now text src tgt|now|i now|];
      [| |discriminate|discriminate|discriminate].
    + simpl in Hnd.
      assert (Hfresh :
        JsMap.has (PerformanceOptimizer.cacheKey text src tgt)
          (translationCache o) = false).
      { destruct (JsMap.has _ _) eqn:E; [|reflexivity].
        apply has_true_in in E. apply NoDup_remove_2 in Hnd.
        exfalso. apply Hnd. apply in_or_app. now left. }
      pose proof (store_fresh_keys now text tr src tgt o Hfresh) as Hk.
      rewrite IH; rewrite ?Hmax; try assumption.
      * simpl run_op. rewrite Hk.
        destruct (Nat.leb_spec (maxCacheSize o)
                    (JsMap.size (translationCache o))) as [Hfull|Hroom].
        -- rewrite size_keys in Hfull, Hle.
           destruct (JsMap.keys (translationCache o)) as [|k0 t] eqn:E.
           ++ simpl in Hfull. lia.
           ++ simpl tl. unfold PerformanceOptimizer.newest.
              rewrite <- !app_assoc.
              rewrite <- !app_comm_cons. change ([?x] ++ ?y) with (x :: y).
              set (L := t ++ PerformanceOptimizer.cacheKey text src tgt
                          :: stored_keys ops).
              assert (HL : maxCacheSize o <= List.length L).
              { unfold L. rewrite length_app. simpl in *. lia. }
              change (List.length (k0 :: L)) with (S (List.length L)).
              replace (S (List.length L) - maxCacheSize o)
                with (S (List.length L - maxCacheSize o)) by lia.
              reflexivity.
        -- now rewrite <- app_assoc.
      * simpl run_op. rewrite Hk.
        destruct (maxCacheSize o <=? JsMap.size (translationCache o)).
        -- destruct (JsMap.keys (translationCache o)) as [|k0 t] eqn:E.
           ++ simpl. exact Hnd.
           ++ simpl tl. rewrite <- app_assoc. simpl.
              simpl in Hnd. now inversion Hnd.
        -- now rewrite <- app_assoc.
    + simpl in Hnd. simpl run_op in *.
      rewrite IH; rewrite ?Hmax, ?lookup_keys;
        try assumption; reflexivity.
Qed.

Lemma construct_state isMobile :
  translationCache (construct isMobile) = []
  /\ maxCacheSize (construct isMobile)
     = PerformanceOptimizer.cacheSize isMobile
  /\ List.length (pending (construct isMobile)) = 32
  /\ 1 <= PerformanceOptimizer.cacheSize isMobile.
Proof. destruct isMobile; repeat split; simpl; lia. Qed.
End OptimizerLaws.

(** *** Without placeholders, the optimizer is the cache of the contract *)

Section Embedding.
Import Optimizer.

Lemma cached_only_get k cache :
  JsMap.get k (cached_only cache) = option_map Cached (JsMap.get k cache).
Proof.
  induction cache as [|[k1 e1] r IH]; simpl; [reflexivity|].
  now destruct (String.eqb k k1).
Qed.

Lemma cached_only_set k e cache :
  JsMap.set k (Cached e) (cached_only cache) = cached_only (JsMap.set k e cache).
Proof.
  induction cache as [|[k1 e1] r IH]; simpl; [reflexivity|].
  destruct (String.eqb k k1); simpl; [reflexivity|now rewrite IH].
Qed.

Lemma cached_only_delete k cache :
  JsMap.delete k (cached_only cache) = cached_only (JsMap.delete k cache).
Proof.
  induction cache as [|[k1 e1] r IH]; simpl; [reflexivity|].
  destruct (String.eqb k k1); simpl; [reflexivity|now rewrite IH].
Qed.

Lemma cached_only_evict cache :
  evictOldest (cached_only cache)
  = cached_only (PerformanceOptimizer.evictOldest cache).
Proof.
  unfold evictOldest, PerformanceOptimizer.evictOldest.
  destruct cache as [|[k1 e1] r]; [reflexivity|].
  exact (cached_only_delete k1 ((k1, e1) :: r)).
Qed.

Lemma cached_only_size cache :
  JsMap.size (cached_only cache) = JsMap.size cache.
Proof. unfold JsMap.size, cached_only. apply length_map. Qed.

(** On a cache without placeholders, a store, a lookup and a sweep of the
    optimizer are those of the cache of the contract. *)
Lemma embed_cacheTranslation latency timers now text tr src tgt o :
  cacheTranslation now text tr src tgt (embed latency timers o)
  = embed latency timers
      (PerformanceOptimizer.cacheTranslation now text tr src tgt o).
Proof.
  unfold cacheTranslation, PerformanceOptimizer.cacheTranslation, embed.
  simpl. rewrite cached_only_size.
  destruct (_ <=? _); [rewrite cached_only_evict|];
    now rewrite cached_only_set.
Qed.

Lemma embed_getCachedTranslation latency timers now text src tgt o :
  getCachedTranslation now text src tgt (embed latency timers o)
  = (option_map Cached
       (fst (PerformanceOptimizer.getCachedTranslation now text src tgt o)),
     embed latency timers
       (snd (PerformanceOptimizer.getCachedTranslation now text src tgt o))).
Proof.
  unfold getCachedTranslation, PerformanceOptimizer.getCachedTranslation,
    embed.
  simpl. rewrite cached_only_get.
  destruct (JsMap.get _ _) as [e|]; simpl; [|reflexivity].
  now rewrite cached_only_set.
Qed.

Lemma embed_cleanupCache latency timers now o :
  cleanupCache now (embed latency timers o)
  = embed latency timers (PerformanceOptimizer.cleanupCache now o).
Proof.
  unfold cleanupCache, PerformanceOptimizer.cleanupCache, embed. simpl.
  f_equal. unfold cached_only.
  induction (PerformanceOptimizer.translationCache o) as [|[k e] r IH];
    simpl; [reflexivity|].
  destruct (negb _); simpl; now rewrite IH.
Qed.
End Embedding.


(** C7 (amended).  The operations of the cache alone keep it within its
    capacity: from a cache of at most [maxCacheSize] entries, after every
    prefix of any sequence of stores, lookups, sweeps and preload writes,
    the cache holds at most [maxCacheSize] entries and one more for each
    preload write of the prefix.  The preload writes are those of the 32
    timers the constructor sets, and they test no capacity: in the
    optimizer as constructed, the entries and the timers still pending are
    together never more than [maxCacheSize + 32].  A store of a new key
    into a cache that holds [maxCacheSize] entries or more drops the
    oldest-inserted entry and appends the new one; hence, from an empty
    cache, after stores of distinct keys with nothing but lookups in
    between the cache holds exactly the [maxCacheSize] most recently
    stored keys, in insertion order. *)
Theorem cache_size_bounded_up_to_preload_writes :
  (forall (ops : list Optimizer.cache_op) (o : Optimizer.optimizer) n,
      1 <= Optimizer.maxCacheSize o ->
      JsMap.size (Optimizer.translationCache o) <= Optimizer.maxCacheSize o ->
      JsMap.size
        (Optimizer.translationCache
           (Optimizer.run_ops (firstn n ops) o))
      <= Optimizer.maxCacheSize o
         + List.length (filter Optimizer.is_fire (firstn n ops)))
  /\ (forall isMobile (ops : list Optimizer.cache_op) n,
      let o := Optimizer.run_ops (firstn n ops)
                 (Optimizer.construct isMobile) in
      Optimizer.maxCacheSize o = PerformanceOptimizer.cacheSize isMobile
      /\ JsMap.size (Optimizer.translationCache o)
         + List.length (Optimizer.pending o)
         <= Optimizer.maxCacheSize o + 32)
  /\ (forall now text tr src tgt o k0 e0 rest,
        Optimizer.translationCache o = (k0, e0) :: rest ->
        Optimizer.maxCacheSize o
          <= JsMap.size (Optimizer.translationCache o) ->
        JsMap.has (PerformanceOptimizer.cacheKey text src tgt)
          (Optimizer.translationCache o) = false ->
        JsMap.keys
          (Optimizer.translationCache
             (Optimizer.cacheTranslation now text tr src tgt o))
        = JsMap.keys rest ++ [PerformanceOptimizer.cacheKey text src tgt])
  /\ (forall (ops : list Optimizer.cache_op) (o : Optimizer.optimizer),
      1 <= Optimizer.maxCacheSize o ->
      Optimizer.translationCache o = [] ->
      forallb Optimizer.is_access ops = true ->
      NoDup (Optimizer.stored_keys ops) ->
      JsMap.keys (Optimizer.translationCache (Optimizer.run_ops ops o))
      = PerformanceOptimizer.newest (Optimizer.maxCacheSize o)
          (Optimizer.stored_keys ops)).
Proof.
  split; [|split; [|split]].
  - intros ops o n Hpos Hle.
    pose proof (ops_size (firstn n ops) o 0 Hpos) as H. lia.
  - intros isMobile ops n. cbv zeta.
    destruct (construct_state isMobile) as [Hc [Hm [Hp Hpos]]].
    rewrite ops_max, Hm. split; [reflexivity|].
    pose proof (ops_budget (firstn n ops) (Optimizer.construct isMobile) 32)
      as H.
    rewrite Hm, Hc, Hp in H. apply H; simpl; lia.
  - intros now text tr src tgt o k0 e0 rest Hc Hfull Hfresh.
    rewrite store_fresh_keys by exact Hfresh.
    apply Nat.leb_le in Hfull. rewrite Hfull, Hc. reflexivity.
  - intros ops o Hpos Hempty Hns Hnd.
    rewrite stores_newest; try assumption.
    + now rewrite Hempty.
    + rewrite Hempty. simpl. lia.
    + now rewrite Hempty.
Qed.

Lemma cache_size_bounded_up_to_preload_writes_witness :
  JsMap.size (Optimizer.translationCache Cases.preloaded) <= 50 + 32
  /\ JsMap.keys
       (Optimizer.translationCache
          (Optimizer.run_ops
             [Optimizer.Store 1 "Hello" (JStr "Hola") "en" "es";
              Optimizer.Lookup 2 "Hello" "en" "es";
              Optimizer.Store 3 "Please" (JStr "Por favor") "en" "es";
              Optimizer.Store 4 "Thank you" (JStr "Merci") "en" "fr"]
             {| Optimizer.translationCache := [];
                Optimizer.maxCacheSize := 2;
                Optimizer.translationLatency := [];
                Optimizer.pending := [] |}))
     = ["Please_en_es"; "Thank you_en_fr"].
Proof.
  destruct cache_size_bounded_up_to_preload_writes as [_ [H2 [_ H4]]].
  split.
  - destruct (H2 true
                (Optimizer.distinct_stores 51
                 ++ repeat (Optimizer.Fire 0 60) 32) 83) as [_ H].
    vm_compute in H. vm_compute. exact H.
  - apply H4; [simpl; lia|reflexivity|reflexivity|].
    apply nodupb_NoDup. reflexivity.
Defined.

(** C7, as stated, fails: in a mobile optimizer, whose capacity is 50,
    51 distinct keys are stored, which leaves 50 entries, and the 32
    preload timers fire; the cache then holds 82 entries. *)
Lemma preload_writes_exceed_capacity :
  Optimizer.maxCacheSize Cases.preloaded = 50
  /\ JsMap.nodupb (Optimizer.stored_keys (Optimizer.distinct_stores 51))
     = true
  /\ List.length (Optimizer.stored_keys (Optimizer.distinct_stores 51)) = 51
  /\ JsMap.size (Optimizer.translationCache Cases.stored51) = 50
  /\ JsMap.size (Optimizer.translationCache Cases.preloaded) = 82
  /\ ~ JsMap.size (Optimizer.translationCache Cases.preloaded) <= 50.
Proof.
  assert (H : JsMap.size (Optimizer.translationCache Cases.preloaded) = 82)
    by (vm_compute; reflexivity).
  split; [vm_compute; reflexivity|].
  split; [vm_compute; reflexivity|].
  split; [vm_compute; reflexivity|].
  split; [vm_compute; reflexivity|].
  split; [exact H|]. rewrite H. lia.
Qed.

(** ** Lookups and requests of the optimizer *)

(** X2.  A lookup that misses returns nothing and leaves the optimizer as
    it was.  A lookup that hits an entry written by [cacheTranslation]
    returns it with its hit count raised by one and the access time set,
    and a second lookup raises the count once more; a lookup that hits a
    placeholder of the preload, which has no hit count to raise, returns
    it with the access time set, its text, translation and write time
    untouched, and no count (the increment leaves NaN).  Either way the
    key order, the capacity, the pending timers, the latency samples,
    every other entry and the time every entry was written at are
    kept. *)
Theorem lookup_counts_hits_and_keeps_the_rest :
  forall now now2 text src tgt (o : Optimizer.optimizer),
    let key := PerformanceOptimizer.cacheKey text src tgt in
    let o' := snd (Optimizer.getCachedTranslation now text src tgt o) in
    (JsMap.get key (Optimizer.translationCache o) = None ->
       Optimizer.getCachedTranslation now text src tgt o = (None, o))
    /\ (forall e,
          JsMap.get key (Optimizer.translationCache o)
          = Some (Optimizer.Cached e) ->
          fst (Optimizer.getCachedTranslation now text src tgt o)
          = Some (Optimizer.Cached
                    {| PerformanceOptimizer.originalText :=
                         PerformanceOptimizer.originalText e;
                       PerformanceOptimizer.translatedText :=
                         PerformanceOptimizer.translatedText e;
                       PerformanceOptimizer.sourceLang :=
                         PerformanceOptimizer.sourceLang e;
                       PerformanceOptimizer.targetLang :=
                         PerformanceOptimizer.targetLang e;
                       PerformanceOptimizer.timestamp :=
                         PerformanceOptimizer.timestamp e;
                       PerformanceOptimizer.hitCount :=
                         S (PerformanceOptimizer.hitCount e);
                       PerformanceOptimizer.lastAccessed := Some now |})
          /\ fst (Optimizer.getCachedTranslation now2 text src tgt o')
             = Some (Optimizer.Cached
                       {| PerformanceOptimizer.originalText :=
                            PerformanceOptimizer.originalText e;
                          PerformanceOptimizer.translatedText :=
                            PerformanceOptimizer.translatedText e;
                          PerformanceOptimizer.sourceLang :=
                            PerformanceOptimizer.sourceLang e;
                          PerformanceOptimizer.targetLang :=
                            PerformanceOptimizer.targetLang e;
                          PerformanceOptimizer.timestamp :=
                            PerformanceOptimizer.timestamp e;
                          PerformanceOptimizer.hitCount :=
                            S (S (PerformanceOptimizer.hitCount e));
                          PerformanceOptimizer.lastAccessed := Some now2 |}))
    /\ (forall phrase translation written accessed,
          JsMap.get key (Optimizer.translationCache o)
          = Some (Optimizer.Placeholder phrase translation written accessed) ->
          fst (Optimizer.getCachedTranslation now text src tgt o)
          = Some (Optimizer.Placeholder phrase translation written
                    (Some now))
          /\ fst (Optimizer.getCachedTranslation now2 text src tgt o')
             = Some (Optimizer.Placeholder phrase translation written
                       (Some now2)))
    /\ JsMap.keys (Optimizer.translationCache o')
       = JsMap.keys (Optimizer.translationCache o)
    /\ Optimizer.maxCacheSize o' = Optimizer.maxCacheSize o
    /\ Optimizer.pending o' = Optimizer.pending o
    /\ Optimizer.translationLatency o' = Optimizer.translationLatency o
    /\ (forall k, k <> key ->
          JsMap.get k (Optimizer.translationCache o')
          = JsMap.get k (Optimizer.translationCache o))
    /\ (forall k,
          option_map Optimizer.slotTimestamp
            (JsMap.get k (Optimizer.translationCache o'))
          = option_map Optimizer.slotTimestamp
              (JsMap.get k (Optimizer.translationCache o))).
Proof.
  intros now now2 text src tgt o key o'.
  assert (Hhit : forall s,
             JsMap.get key (Optimizer.translationCache o) = Some s ->
             fst (Optimizer.getCachedTranslation now text src tgt o)
             = Some (Optimizer.touch now s)
             /\ fst (Optimizer.getCachedTranslation now2 text src tgt o')
                = Some (Optimizer.touch now2 (Optimizer.touch now s))).
  { intros s Hs. unfold o', Optimizer.getCachedTranslation. fold key.
    rewrite Hs. simpl. fold key. now rewrite get_set_same. }
  split; [|split; [|split; [|split; [|split; [|split; [|split; [|split]]]]]]].
  - intros Hm. unfold Optimizer.getCachedTranslation. fold key.
    now rewrite Hm.
  - intros e He. exact (Hhit _ He).
  - intros phrase translation written accessed Hp. exact (Hhit _ Hp).
  - apply lookup_keys.
  - unfold o', Optimizer.getCachedTranslation.
    now destruct (JsMap.get _ _).
  - apply lookup_pending.
  - unfold o', Optimizer.getCachedTranslation.
    now destruct (JsMap.get _ _).
  - intros k Hk. unfold o', Optimizer.getCachedTranslation. fold key.
    destruct (JsMap.get key (Optimizer.translationCache o)); simpl;
      [|reflexivity].
    rewrite get_set_other; [reflexivity|congruence].
  - intros k. unfold o', Optimizer.getCachedTranslation. fold key.
    destruct (JsMap.get key (Optimizer.translationCache o)) as [s|] eqn:Es;
      simpl; [|reflexivity].
    destruct (String.eqb_spec key k) as [<-|Hne].
    + rewrite get_set_same, Es. now destruct s.
    + now rewrite get_set_other by exact Hne.
Qed.

(** X8.  A request that cannot be completed, or that is answered without
    success, caches nothing.  On a miss [translateSingle] sends the
    request.  When the request throws it raises "Translation failed:
    <message>" and the optimizer is exactly as it was.  When the reply
    comes without success it is handed back, the cache, the capacity and
    the pending timers are as they were, and one latency sample has been
    recorded, as it is for every reply. *)
Theorem failed_translation_is_not_cached :
  forall (B : PerformanceOptimizer.Backend) (t : Optimizer.readings) req
         (o : Optimizer.optimizer)
         (w w1 : PerformanceOptimizer.backend_world B),
    JsMap.get
      (PerformanceOptimizer.cacheKey (PerformanceOptimizer.text req)
         (PerformanceOptimizer.reqSourceLang req)
         (PerformanceOptimizer.reqTargetLang req))
      (Optimizer.translationCache o) = None ->
    (forall message,
        PerformanceOptimizer.post_translate B req w
        = (PerformanceOptimizer.FetchFailed message, w1) ->
        Optimizer.translateSingle B t req o w
        = (Optimizer.SingleError ("Translation failed: " ++ message),
           [req], o, w1))
    /\ (forall r,
        PerformanceOptimizer.post_translate B req w
        = (PerformanceOptimizer.Answered r, w1) ->
        truthy (PerformanceOptimizer.success r) = false ->
        Optimizer.translateSingle B t req o w
        = (Optimizer.FromServer r, [req],
           {| Optimizer.translationCache := Optimizer.translationCache o;
              Optimizer.maxCacheSize := Optimizer.maxCacheSize o;
              Optimizer.translationLatency :=
                Optimizer.translationLatency o ++
                [Metrics.LatencySample (Optimizer.sampledAt t)
                   (Optimizer.repliedAt t - Optimizer.startTime t)
                   (String.length (PerformanceOptimizer.text req))];
              Optimizer.pending := Optimizer.pending o |}, w1)).
Proof.
  intros B t req o w w1 Hmiss. split.
  - intros message Hpost.
    unfold Optimizer.translateSingle, Optimizer.getCachedTranslation.
    now rewrite Hmiss, Hpost.
  - intros r Hpost Hno.
    unfold Optimizer.translateSingle, Optimizer.getCachedTranslation.
    now rewrite Hmiss, Hpost, Hno.
Qed.

Lemma failed_translation_is_not_cached_witness :
  Optimizer.translateSingle Cases.offline Cases.ticks Cases.hello
    (Optimizer.construct false) 0
  = (Optimizer.SingleError "Translation failed: Failed to fetch",
     [Cases.hello], Optimizer.construct false, 1)
  /\ Optimizer.translationLatency
       (snd (fst (Optimizer.translateSingle Cases.refusing Cases.ticks
                    Cases.hello (Optimizer.construct false) 0)))
     = [Metrics.LatencySample 16 4 5]
  /\ Optimizer.translationCache
       (snd (fst (Optimizer.translateSingle Cases.refusing Cases.ticks
                    Cases.hello (Optimizer.construct false) 0)))
     = [].
Proof.
  destruct (failed_translation_is_not_cached Cases.offline Cases.ticks
              Cases.hello (Optimizer.construct false) 0 1 eq_refl)
    as [H _].
  destruct (failed_translation_is_not_cached Cases.refusing Cases.ticks
              Cases.hello (Optimizer.construct false) 0 1 eq_refl)
    as [_ H'].
  split; [exact (H _ eq_refl)|].
  rewrite (H' _ eq_refl eq_refl). split; reflexivity.
Defined.

(** X21.  [translateSingle] answers from the cache whatever it finds under
    the key, and sends no request then.  For an entry written by
    [cacheTranslation] the answer carries the entry's original and
    translated text.  For a placeholder of the preload, whose fields are
    named [text] and [translation], the answer carries no text at all:
    both [originalText] and [translatedText] are undefined.  On a miss
    answered with success, the reply is handed back after one request,
    one latency sample is recorded and the translation is stored. *)
Theorem translation_of_preloaded_phrase_has_no_text :
  forall (B : PerformanceOptimizer.Backend) (t : Optimizer.readings) req
         (o : Optimizer.optimizer) (w : PerformanceOptimizer.backend_world B),
    let key :=
      PerformanceOptimizer.cacheKey (PerformanceOptimizer.text req)
        (PerformanceOptimizer.reqSourceLang req)
        (PerformanceOptimizer.reqTargetLang req) in
    let looked :=
      snd (Optimizer.getCachedTranslation (Optimizer.lookupAt t)
             (PerformanceOptimizer.text req)
             (PerformanceOptimizer.reqSourceLang req)
             (PerformanceOptimizer.reqTargetLang req) o) in
    (forall e,
        JsMap.get key (Optimizer.translationCache o)
        = Some (Optimizer.Cached e) ->
        Optimizer.translateSingle B t req o w
        = (Optimizer.FromCache (JStr (PerformanceOptimizer.originalText e))
             (PerformanceOptimizer.translatedText e), [], looked, w))
    /\ (forall phrase translation written accessed,
        JsMap.get key (Optimizer.translationCache o)
        = Some (Optimizer.Placeholder phrase translation written accessed) ->
        Optimizer.translateSingle B t req o w
        = (Optimizer.FromCache JUndefined JUndefined, [], looked, w))
    /\ (forall r w1,
        JsMap.get key (Optimizer.translationCache o) = None ->
        PerformanceOptimizer.post_translate B req w
        = (PerformanceOptimizer.Answered r, w1) ->
        truthy (PerformanceOptimizer.success r) = true ->
        Optimizer.translateSingle B t req o w
        = (Optimizer.FromServer r, [req],
           Optimizer.cacheTranslation (Optimizer.storedAt t)
             (PerformanceOptimizer.text req)
             (PerformanceOptimizer.replyText r)
             (PerformanceOptimizer.reqSourceLang req)
             (PerformanceOptimizer.reqTargetLang req)
             {| Optimizer.translationCache := Optimizer.translationCache o;
                Optimizer.maxCacheSize := Optimizer.maxCacheSize o;
                Optimizer.translationLatency :=
                  Optimizer.translationLatency o ++
                  [Metrics.LatencySample (Optimizer.sampledAt t)
                     (Optimizer.repliedAt t - Optimizer.startTime t)
                     (String.length (PerformanceOptimizer.text req))];
                Optimizer.pending := Optimizer.pending o |}, w1)).
Proof.
  intros B t req o w key looked. unfold looked.
  unfold Optimizer.translateSingle, Optimizer.getCachedTranslation.
  fold key. split; [|split].
  - intros e He. now rewrite He.
  - intros phrase translation written accessed Hp. now rewrite Hp.
  - intros r w1 Hmiss Hpost Hok. now rewrite Hmiss, Hpost, Hok.
Qed.

Lemma translation_of_preloaded_phrase_has_no_text_witness :
  JsMap.get "Hello_en_es"
    (Optimizer.translationCache
       (Optimizer.fire 0 60 (Optimizer.construct false)))
  = Some (Optimizer.Placeholder "Hello" "[es] Hello" 60 None)
  /\ fst (fst (fst (Optimizer.translateSingle Scenario.endpoint Cases.ticks
                      Cases.hello
                      (Optimizer.fire 0 60 (Optimizer.construct false)) 0)))
     = Optimizer.FromCache JUndefined JUndefined
  /\ snd (fst (fst (Optimizer.translateSingle Scenario.endpoint Cases.ticks
                      Cases.hello
                      (Optimizer.fire 0 60 (Optimizer.construct false)) 0)))
     = [].
Proof.
  destruct (translation_of_preloaded_phrase_has_no_text Scenario.endpoint
              Cases.ticks Cases.hello
              (Optimizer.fire 0 60 (Optimizer.construct false)) 0)
    as [_ [H _]].
  split; [reflexivity|].
  rewrite (H "Hello" "[es] Hello" 60%Z None eq_refl). split; reflexivity.
Defined.

(** ** The provider chain *)

Section ChainLaws.
Context (N : Network) (text src tgt : string).

Lemma tryServices_spec (ss : list service) : forall w,
  let '(res, calls, w') := tryServices N ss text src tgt w in
  (exists n, map callee calls = firstn n ss)
  /\ Forall (about text src tgt) calls
  /\ genuine N calls w
  /\ w' = after_calls N calls w
  /\ match res with
     | Translated v =>
         exists earlier last,
           calls = earlier ++ [last]
           /\ Forall failed earlier
           /\ settled last = Resolved v
           /\ truthy v = true
     | ChainError message =>
         message = "All translation services failed"
         /\ map callee calls = ss
         /\ Forall failed calls
     end.
Proof.
  induction ss as [|s rest IH]; intros w; simpl.
  - split; [now exists 0|]. split; [constructor|]. split; [exact I|].
    split; [reflexivity|]. split; [reflexivity|]. split; [reflexivity|].
    constructor.
  - destruct (translateWith N s text src tgt w) as [o w1] eqn:Ecall.
    set (c := {| callee := s; callText := text; callSource := src;
                 callTarget := tgt; settled := o |}).
    assert (Hc : about text src tgt c) by (unfold about; simpl; auto).
    destruct (usable o) as [v|] eqn:Euse.
    + split; [now exists 1|]. split; [now constructor|].
      split; [simpl; now rewrite Ecall|].
      split; [simpl; now rewrite Ecall|].
      exists [], c. simpl.
      unfold usable in Euse. destruct o as [v'|]; [|discriminate].
      destruct (truthy v') eqn:Et; [|discriminate].
      injection Euse as ->. auto.
    + specialize (IH w1).
      destruct (tryServices N rest text src tgt w1) as [[res calls] w2].
      destruct IH as [[n Hn] [Hab [Hgen [Hw Hres]]]].
      split; [exists (S n); simpl; now rewrite Hn|].
      split; [now constructor|].
      split; [simpl; now rewrite Ecall|].
      split; [simpl; now rewrite Ecall|].
      destruct res as [v|message].
      * destruct Hres as [earlier [last [-> [Hf [Hs Ht]]]]].
        exists (c :: earlier), last.
        split; [reflexivity|]. split; [|auto].
        constructor; [exact Euse|exact Hf].
      * destruct Hres as [-> [Hcs Hf]].
        split; [reflexivity|]. split; [simpl; now rewrite Hcs|].
        constructor; [exact Euse|exact Hf].
Qed.
End ChainLaws.

(** C5.  [translateWithFreeServices] calls the backends in the fixed order
    LibreTranslate, MyMemory, Lingva, each with the arguments of the call,
    and stops at the first one that returns a usable (truthy) value, which
    is its result: every backend called before it failed, that is it threw
    (errors and timeouts alike) or returned nothing usable.  It fails only
    after all three were called and all failed, and the failure is the
    constant message, with no partial result. *)
Theorem provider_chain_first_success_or_total_failure :
  forall (N : Network) (text src tgt : string) (w : world N),
    let '(res, calls, w') := translateWithFreeServices N text src tgt w in
    (exists n,
        map callee calls = firstn n [LibreTranslate; MyMemory; Lingva])
    /\ Forall (about text src tgt) calls
    /\ genuine N calls w
    /\ w' = after_calls N calls w
    /\ match res with
       | Translated v =>
           exists earlier last,
             calls = earlier ++ [last]
             /\ Forall failed earlier
             /\ settled last = Resolved v
             /\ truthy v = true
       | ChainError message =>
           message = "All translation services failed"
           /\ map callee calls = [LibreTranslate; MyMemory; Lingva]
           /\ Forall failed calls
       end.
Proof.
  intros N text src tgt w. unfold translateWithFreeServices.
  exact (tryServices_spec N text src tgt services w).
Qed.

(** ** The relay loop *)

Section ForEachLaws.
Context {V E W : Type} (body : string -> V -> W -> list (action E) * W).

Lemma events_to_app u (a b : list (action E)) :
  events_to u (a ++ b) = events_to u a + events_to u b.
Proof. unfold events_to. now rewrite filter_app, length_app. Qed.

Lemma events_to_invokes u (calls : list call) :
  events_to u (map (@Invoke E) calls) = 0.
Proof. induction calls; simpl; auto. Qed.

Lemma forEach_keys m : forall w,
  JsMap.keys (fst (forEach body m w)) = JsMap.keys m.
Proof.
  induction m as [|[k i] rest IH]; intros w; simpl; [reflexivity|].
  destruct (body k i w) as [acts w1]. specialize (IH w1).
  destruct (forEach body rest w1) as [log w2]. simpl in *. now rewrite IH.
Qed.

(** The log entry of a member is the iteration run for it, in the world
    the loop had reached. *)
Lemma forEach_get m : forall w u info,
  JsMap.get u m = Some info ->
  exists w0, JsMap.get u (fst (forEach body m w))
             = Some (fst (body u info w0)).
Proof.
  induction m as [|[k i] rest IH]; intros w u info; simpl; [discriminate|].
  destruct (body k i w) as [acts w1] eqn:Eb.
  specialize (IH w1 u info).
  destruct (forEach body rest w1) as [log w2]. simpl in *.
  destruct (String.eqb_spec u k) as [->|Hne].
  - intros [= ->]. exists w. now rewrite Eb.
  - exact IH.
Qed.

Section Counting.
Context (u : string).
Hypothesis others :
  forall k i w, k <> u -> events_to u (fst (body k i w)) = 0.

Lemma forEach_events_absent m : forall w,
  ~ In u (JsMap.keys m) ->
  events_to u (flatten (fst (forEach body m w))) = 0.
Proof.
  induction m as [|[k i] rest IH]; intros w Hn; simpl; [reflexivity|].
  pose proof (others k i w) as Hk.
  destruct (body k i w) as [acts w1]. specialize (IH w1).
  destruct (forEach body rest w1) as [log w2]. simpl in *.
  unfold flatten in *. simpl. rewrite events_to_app.
  rewrite Hk, IH; auto.
Qed.

Lemma forEach_events_present m : forall w info,
  JsMap.wf m ->
  JsMap.get u m = Some info ->
  exists w0, events_to u (flatten (fst (forEach body m w)))
             = events_to u (fst (body u info w0)).
Proof.
  induction m as [|[k i] rest IH]; intros w info Hwf; simpl;
    [discriminate|].
  apply wf_NoDup in Hwf. simpl in Hwf.
  inversion Hwf as [|? ? Hn Hr]; subst.
  pose proof (others k i w) as Hk.
  pose proof (forEach_events_absent rest) as Habs.
  destruct (body k i w) as [acts w1] eqn:Eb.
  specialize (IH w1 info). specialize (Habs w1).
  destruct (forEach body rest w1) as [log w2]. simpl in *.
  unfold flatten in *. simpl. rewrite events_to_app.
  destruct (String.eqb_spec u k) as [->|Hne].
  - intros [= ->]. exists w. rewrite Eb. simpl.
    rewrite Habs by exact Hn. lia.
  - intros Hg. rewrite Hk by congruence.
    apply IH; [now apply wf_NoDup|exact Hg].
Qed.
End Counting.
End ForEachLaws.

(** ** The relay of the first server *)

Section FirstRelay.
Import FirstServer.
Context (N : Network) (socketId : string) (s : session)
        (text sourceLanguage : string).

Lemma first_relayTo_events u k info w :
  events_to u (fst (relayTo N socketId s text sourceLanguage k info w)) =
  if String.eqb k u && negb (String.eqb k socketId) then 1 else 0.
Proof.
  unfold relayTo. destruct (String.eqb k socketId); simpl.
  - now rewrite andb_false_r.
  - rewrite andb_true_r.
    destruct (negb (String.eqb (userLanguage info) sourceLanguage)).
    + destruct (translateWithFreeServices N text sourceLanguage
                  (userLanguage info) w) as [[[v|message] calls] w1]; simpl;
        rewrite events_to_app, events_to_invokes; unfold events_to; simpl;
        now destruct (String.eqb k u).
    + unfold events_to. simpl. now destruct (String.eqb k u).
Qed.

Lemma first_relayTo_other u k info w :
  k <> u ->
  events_to u (fst (relayTo N socketId s text sourceLanguage k info w)) = 0.
Proof.
  intros Hne. rewrite first_relayTo_events.
  destruct (String.eqb_spec k u); [contradiction|reflexivity].
Qed.

Lemma first_relay_count (members : JsMap.t userInfo) w u :
  JsMap.wf members ->
  events_to u
    (flatten (fst (forEach (relayTo N socketId s text sourceLanguage)
                     members w))) =
  if JsMap.has u members && negb (String.eqb u socketId) then 1 else 0.
Proof.
  intros Hwf. unfold JsMap.has.
  destruct (JsMap.get u members) as [info|] eqn:Eg.
  - destruct (forEach_events_present _ u (first_relayTo_other u) members w
                info Hwf Eg) as [w0 ->].
    rewrite first_relayTo_events. now rewrite String.eqb_refl.
  - simpl. apply forEach_events_absent; [apply first_relayTo_other|].
    now apply get_none_not_in.
Qed.

(** The iteration for a member who speaks the language of the utterance. *)
Lemma first_relayTo_same_language u info w :
  u <> socketId ->
  userLanguage info = sourceLanguage ->
  relayTo N socketId s text sourceLanguage u info w =
  ([Emit (ToRoom u) (NewMessage text (sessionUserName s) (clock N w))], w).
Proof.
  intros Hne Hl. unfold relayTo.
  destruct (String.eqb_spec u socketId); [contradiction|].
  rewrite Hl, String.eqb_refl. reflexivity.
Qed.

(** The iteration for a member who speaks another language. *)
Lemma first_relayTo_other_language u info w :
  u <> socketId ->
  userLanguage info <> sourceLanguage ->
  relayTo N socketId s text sourceLanguage u info w =
  let '(res, calls, w1) :=
    translateWithFreeServices N text sourceLanguage (userLanguage info) w in
  (map Invoke calls ++
   [Emit (ToRoom u)
      (LiveTranslation text
         match res with Translated v => v | ChainError _ => JStr text end
         (sessionUserName s) sourceLanguage (userLanguage info)
         (clock N w1)
         match res with
         | Translated _ => None
         | ChainError _ => Some "Translation failed"
         end)], w1).
Proof.
  intros Hne Hl. unfold relayTo.
  destruct (String.eqb_spec u socketId); [contradiction|].
  destruct (String.eqb_spec (userLanguage info) sourceLanguage);
    [contradiction|]. simpl.
  destruct (translateWithFreeServices N text sourceLanguage
              (userLanguage info) w) as [[[v|message] calls] w1];
    reflexivity.
Qed.
End FirstRelay.

(** ** The relay of the second server *)

Section SecondRelay.
Import SecondServer.
Context (N : Network) (socketId : string) (s : session)
        (text : string) (isInterim : bool).



Lemma second_relayTo_translated u info w :
  u <> socketId ->
  userLanguage info <> sessionUserLanguage s ->
  (exists v calls w1,
      translateWithFreeServices N text (sessionUserLanguage s)
        (userLanguage info) w = (Translated v, calls, w1)) ->
  events_to u (fst (relayTo N socketId s text isInterim u info w)) = 1.
Proof.
  intros Hne Hl [v [calls [w1 Ht]]]. unfold relayTo.
  destruct (String.eqb_spec u socketId); [contradiction|].
  destruct (String.eqb_spec (userLanguage info) (sessionUserLanguage s));
    [contradiction|].
  rewrite Ht. simpl. rewrite events_to_app, events_to_invokes.
  unfold events_to. simpl. now rewrite String.eqb_refl.
Qed.
End SecondRelay.

Section RelayEntries.
Context {V E W : Type} (body : string -> V -> W -> list (action E) * W).

(** In a well-formed member map, the iterations logged for [u] are the
    single run of the body for [u]. *)
Lemma forEach_entry (m : JsMap.t V) (w : W) u info :
  JsMap.wf m ->
  JsMap.get u m = Some info ->
  exists w0, forall acts,
    In (u, acts) (fst (forEach body m w)) <-> acts = fst (body u info w0).
Proof.
  intros Hwf Hg. destruct (forEach_get body m w u info Hg) as [w0 Hlog].
  exists w0. intros acts. split.
  - intros Hin. apply in_get in Hin; [congruence|].
    unfold JsMap.wf. now rewrite forEach_keys.
  - intros ->. now apply get_in.
Qed.
End RelayEntries.


(** ** The loop at a given member, and deliveries *)

Section ForEachAt.
Context {V E W : Type} (body : string -> V -> W -> list (action E) * W).


Lemma reaches_absent (m : JsMap.t V) : forall w u,
  JsMap.get u m = None -> reaches body m w u = None.
Proof.
  induction m as [|[k i] rest IH]; intros w u; simpl; [reflexivity|].
  destruct (String.eqb u k); [discriminate|apply IH].
Qed.




End ForEachAt.

Section Deliveries.
Context {E : Type}.

Lemma deliveries_app A u (a b : list (action E)) :
  deliveries A u (a ++ b) = deliveries A u a + deliveries A u b.
Proof. unfold deliveries. now rewrite filter_app, length_app. Qed.



End Deliveries.

Section FirstDelivery.
Import FirstServer.
Context (N : Network) (socketId : string) (s : session)
        (text sourceLanguage : string).


End FirstDelivery.

Section SecondDelivery.
Import SecondServer.
Context (N : Network) (socketId : string) (s : session)
        (text : string) (isInterim : bool).



End SecondDelivery.








(** C2.  With every backend failing, the second server calls the three
    backends for Bob and emits nothing to him (nor to anyone), whereas the
    first server, on the same room and utterance, sends Bob the original
    text with the error flag. *)
Theorem second_server_drops_recipient_on_total_failure :
  fst (SecondServer.liveSpeech Scenario.down "alice" "X" false
         Scenario.room2 tt)
  = [("alice", []);
     ("bob",
      [Invoke {| callee := LibreTranslate; callText := "X";
                 callSource := "en"; callTarget := "es";
                 settled := Rejected "unreachable" |};
       Invoke {| callee := MyMemory; callText := "X";
                 callSource := "en"; callTarget := "es";
                 settled := Rejected "unreachable" |};
       Invoke {| callee := Lingva; callText := "X";
                 callSource := "en"; callTarget := "es";
                 settled := Rejected "unreachable" |}]);
     ("carol", [])]
  /\ events_to "bob"
       (flatten (fst (SecondServer.liveSpeech Scenario.down "alice" "X" false
                        Scenario.room2 tt))) = 0
  /\ filter (addressed_to "bob")
       (flatten (fst (FirstServer.liveSpeech Scenario.down "alice" "X" "en"
                        Scenario.room1 tt)))
     = [Emit (ToRoom "bob")
          (FirstServer.LiveTranslation "X" (JStr "X") "Alice" "en" "es" 0
             (Some "Translation failed"))].
Proof. split; [reflexivity|split; reflexivity]. Qed.

(** On the first server a member whose translation fails altogether is
    sent the original text with the error flag, after the three failed
    calls. *)
Lemma first_server_degrades_on_total_failure :
  forall (N : Network) socketId text sourceLanguage st (w : world N) s r
         u info,
    JsMap.get socketId (FirstServer.userSessions st) = Some s ->
    JsMap.get (FirstServer.roomId s) (FirstServer.rooms st) = Some r ->
    JsMap.wf (FirstServer.users r) ->
    JsMap.get u (FirstServer.users r) = Some info ->
    u <> socketId ->
    FirstServer.userLanguage info <> sourceLanguage ->
    (forall w0, exists message calls w1,
        translateWithFreeServices N text sourceLanguage
          (FirstServer.userLanguage info) w0 = (ChainError message, calls, w1))
    ->
    exists calls w1, forall acts,
      In (u, acts)
         (fst (FirstServer.liveSpeech N socketId text sourceLanguage st w))
      <-> acts =
          map Invoke calls ++
          [Emit (ToRoom u)
             (FirstServer.LiveTranslation text (JStr text)
                (FirstServer.sessionUserName s) sourceLanguage
                (FirstServer.userLanguage info) (clock N w1)
                (Some "Translation failed"))].
Proof.
  intros N socketId text sourceLanguage st w s r u info Hs Hr Hwf Hu Hne Hl
         Hfail.
  unfold FirstServer.liveSpeech. rewrite Hs, Hr.
  destruct (forEach_entry
              (FirstServer.relayTo N socketId s text sourceLanguage)
              (FirstServer.users r) w u info Hwf Hu) as [w0 H].
  destruct (Hfail w0) as [message [calls [w1 Ht]]].
  exists calls, w1. intros acts. rewrite H.
  rewrite first_relayTo_other_language by assumption. now rewrite Ht.
Qed.




(** ** The room registry of the first server *)

Section Registry.
Import FirstServer.

Lemma removeFromRoom_keeps socketId rid name rs :
  JsMap.wf rs -> populated rs ->
  JsMap.wf (snd (removeFromRoom socketId rid name rs))
  /\ populated (snd (removeFromRoom socketId rid name rs)).
Proof.
  intros Hwf Hpop. unfold removeFromRoom.
  destruct (JsMap.get rid rs) as [r|] eqn:Er; simpl; [|tauto].
  destruct (Nat.eqb_spec (JsMap.size (JsMap.delete socketId (users r))) 0)
    as [Hz|Hnz].
  - split; [now apply wf_delete, wf_set|].
    intros k r0. destruct (String.eqb_spec rid k) as [<-|Hne].
    + rewrite get_delete_same by now apply wf_set. discriminate.
    + rewrite get_delete_other, get_set_other by exact Hne. apply Hpop.
  - split; [now apply wf_set|].
    intros k r0. destruct (String.eqb_spec rid k) as [<-|Hne].
    + rewrite get_set_same. intros [= <-]. simpl. lia.
    + rewrite get_set_other by exact Hne. apply Hpop.
Qed.

Lemma populated_set rid r rs :
  populated rs -> 1 <= JsMap.size (users r) ->
  populated (JsMap.set rid r rs).
Proof.
  intros Hpop Hr k r0. destruct (String.eqb_spec rid k) as [<-|Hne].
  - rewrite get_set_same. now intros [= <-].
  - rewrite get_set_other by exact Hne. apply Hpop.
Qed.

(** Adding a member to room [rid], creating the room when it is absent:
    the second half of [join-room]. *)
Lemma enter_keeps socketId rid (info : userInfo) now rs r :
  JsMap.wf rs -> populated rs ->
  JsMap.get rid
    (if JsMap.has rid rs then rs
     else JsMap.set rid
            {| id := rid; users := JsMap.empty; createdAt := now |} rs)
    = Some r ->
  let rs2 :=
    if JsMap.has rid rs then rs
    else JsMap.set rid
           {| id := rid; users := JsMap.empty; createdAt := now |} rs in
  let rs3 :=
    JsMap.set rid (with_users r (JsMap.set socketId info (users r))) rs2 in
  JsMap.wf rs3 /\ populated rs3.
Proof.
  intros Hwf Hpop Hr rs2 rs3. split.
  - unfold rs3, rs2. destruct (JsMap.has rid rs); now repeat apply wf_set.
  - intros k r0. unfold rs3.
    destruct (String.eqb_spec rid k) as [<-|Hne].
    + rewrite get_set_same. intros [= <-]. simpl. apply size_set_pos.
    + rewrite get_set_other by exact Hne. unfold rs2.
      destruct (JsMap.has rid rs); [apply Hpop|].
      rewrite get_set_other by exact Hne. apply Hpop.
Qed.

Lemma get_after_has {V} rid (v : V) (rs : JsMap.t V) :
  JsMap.get rid (if JsMap.has rid rs then rs else JsMap.set rid v rs)
  <> None.
Proof.
  unfold JsMap.has. destruct (JsMap.get rid rs) eqn:E.
  - congruence.
  - rewrite get_set_same. discriminate.
Qed.

Lemma joinRoom_keeps socketId rid name lang now st :
  JsMap.wf (rooms st) -> populated (rooms st) ->
  JsMap.wf (rooms (snd (joinRoom socketId rid name lang now st)))
  /\ populated (rooms (snd (joinRoom socketId rid name lang now st))).
Proof.
  intros Hwf Hpop. unfold joinRoom.
  assert (Hleft :
    forall acts rs,
      match JsMap.get socketId (userSessions st) with
      | Some prevSession =>
          let '(acts, rs) :=
            removeFromRoom socketId (roomId prevSession)
              (sessionUserName prevSession) (rooms st) in
          (SocketLeave socketId (roomId prevSession) :: acts, rs)
      | None => ([], rooms st)
      end = (acts, rs) ->
      JsMap.wf rs /\ populated rs).
  { intros acts rs.
    destruct (JsMap.get socketId (userSessions st)) as [prev|].
    - pose proof (removeFromRoom_keeps socketId (roomId prev)
                    (sessionUserName prev) (rooms st) Hwf Hpop) as H.
      destruct (removeFromRoom _ _ _ _) as [a rs']. intros [= _ <-].
      exact H.
    - intros [= _ <-]. tauto. }
  destruct (match JsMap.get socketId (userSessions st) with
            | Some _ => _ | None => _ end) as [acts1 rs1] eqn:E1.
  destruct (Hleft acts1 rs1 eq_refl) as [Hwf1 Hpop1].
  destruct (JsMap.get rid _) as [r|] eqn:Er; simpl.
  - exact (enter_keeps socketId rid _ now rs1 r Hwf1 Hpop1 Er).
  - exfalso. exact (get_after_has rid _ rs1 Er).
Qed.

Lemma changeLanguage_keeps socketId language st :
  JsMap.wf (rooms st) -> populated (rooms st) ->
  JsMap.wf (rooms (snd (changeLanguage socketId language st)))
  /\ populated (rooms (snd (changeLanguage socketId language st))).
Proof.
  intros Hwf Hpop. unfold changeLanguage.
  destruct (JsMap.get socketId (userSessions st)) as [s|]; simpl; [|tauto].
  destruct (JsMap.get (roomId s) (rooms st)) as [r|]; simpl; [|tauto].
  destruct (JsMap.get socketId (users r)) as [info|]; simpl; [|tauto].
  split; [now apply wf_set|].
  apply populated_set; [exact Hpop|]. simpl. apply size_set_pos.
Qed.

Lemma disconnect_keeps socketId st :
  JsMap.wf (rooms st) -> populated (rooms st) ->
  JsMap.wf (rooms (snd (disconnect socketId st)))
  /\ populated (rooms (snd (disconnect socketId st))).
Proof.
  intros Hwf Hpop. unfold disconnect.
  destruct (JsMap.get socketId (userSessions st)) as [s|]; simpl; [|tauto].
  pose proof (removeFromRoom_keeps socketId (roomId s) (sessionUserName s)
                (rooms st) Hwf Hpop) as H.
  now destruct (removeFromRoom _ _ _ _) as [a rs'].
Qed.

Lemma step_keeps i st :
  JsMap.wf (rooms st) -> populated (rooms st) ->
  JsMap.wf (rooms (step i st)) /\ populated (rooms (step i st)).
Proof.
  destruct i; simpl.
  - apply joinRoom_keeps.
  - apply changeLanguage_keeps.
  - apply disconnect_keeps.
Qed.

Lemma steps_keep inputs : forall st,
  JsMap.wf (rooms st) -> populated (rooms st) ->
  JsMap.wf (rooms (fold_left (fun st i => step i st) inputs st))
  /\ populated (rooms (fold_left (fun st i => step i st) inputs st)).
Proof.
  induction inputs as [|i inputs IH]; intros st Hwf Hpop; simpl; [tauto|].
  destruct (step_keeps i st Hwf Hpop). now apply IH.
Qed.

(** The room of a departing last member is deleted. *)
Lemma removeFromRoom_last socketId rid name rs r info :
  JsMap.wf rs ->
  JsMap.get rid rs = Some r ->
  users r = [(socketId, info)] ->
  JsMap.get rid (snd (removeFromRoom socketId rid name rs)) = None.
Proof.
  intros Hwf Hr Hu. unfold removeFromRoom. rewrite Hr, Hu. simpl.
  rewrite String.eqb_refl. simpl.
  apply get_delete_same. now apply wf_set.
Qed.
End Registry.

(** ** Joining the room one is already in *)

Lemma set_fresh {V : Type} k (v : V) (m : JsMap.t V) :
  JsMap.get k m = None -> JsMap.set k v m = m ++ [(k, v)].
Proof.
  induction m as [|[k1 v1] r IH]; simpl; [reflexivity|].
  destruct (String.eqb k k1); [discriminate|].
  intros H. now rewrite IH.
Qed.

Lemma has_set_same {V : Type} k (v : V) (m : JsMap.t V) :
  JsMap.has k (JsMap.set k v m) = true.
Proof. unfold JsMap.has. now rewrite get_set_same. Qed.

Lemma has_delete_same {V : Type} k (m : JsMap.t V) :
  JsMap.wf m -> JsMap.has k (JsMap.delete k m) = false.
Proof. intros H. unfold JsMap.has. now rewrite get_delete_same. Qed.

Lemma updateRoomUsers_sessions rid userId action st :
  SecondServer.userSessions (SecondServer.updateRoomUsers rid userId action st)
  = SecondServer.userSessions st.
Proof.
  unfold SecondServer.updateRoomUsers.
  destruct (JsMap.get rid _); [|reflexivity].
  destruct (String.eqb action "join").
  - now destruct (JsMap.get userId _).
  - now destruct (String.eqb action "leave").
Qed.

(** What is left of the room after a leave, the empty map when the room
    was deleted. *)
Lemma updateRoomUsers_leave rid userId st room :
  JsMap.wf (SecondServer.activeRooms st) ->
  JsMap.get rid (SecondServer.activeRooms st) = Some room ->
  SecondServer.getRoomUsers rid
    (SecondServer.updateRoomUsers rid userId "leave" st)
  = JsMap.delete userId room.
Proof.
  intros Hwf Hr. unfold SecondServer.updateRoomUsers, SecondServer.getRoomUsers.
  unfold JsMap.has. rewrite Hr. simpl. rewrite Hr. simpl.
  destruct (Nat.eqb_spec (JsMap.size (JsMap.delete userId room)) 0)
    as [Hz|Hnz].
  - rewrite get_delete_same by now apply wf_set.
    apply size_zero_empty in Hz. now rewrite Hz.
  - now rewrite get_set_same.
Qed.

Lemma updateRoomUsers_join rid userId st sess :
  JsMap.get userId (SecondServer.userSessions st) = Some sess ->
  JsMap.get rid
    (SecondServer.activeRooms
       (SecondServer.updateRoomUsers rid userId "join" st))
  = Some (JsMap.set userId
            {| SecondServer.userName := SecondServer.sessionUserName sess;
               SecondServer.userLanguage :=
                 SecondServer.sessionUserLanguage sess;
               SecondServer.joinedAt := SecondServer.sessionJoinedAt sess |}
            (SecondServer.getRoomUsers rid st)).
Proof.
  intros Hs. unfold SecondServer.updateRoomUsers, SecondServer.getRoomUsers.
  unfold JsMap.has.
  destruct (JsMap.get rid (SecondServer.activeRooms st)) as [r|] eqn:Er.
  - rewrite Er, Hs. simpl. now rewrite get_set_same.
  - rewrite get_set_same, Hs. simpl. now rewrite get_set_same.
Qed.

(** C9 (amended).  Joining the room the connection already occupies is
    allowed and ends with the connection a member under the new name and
    language, the other members untouched, but it is carried out as a
    leave followed by a join: the member entry is deleted and appended
    anew at the end of the member order; the first server announces
    user-left to the room before user-joined (the second announces only
    user-joined); and when the connection was the only member the room is
    deleted and created again, with a new creation time. *)
Theorem rejoin_is_leave_then_join :
  (forall socketId rid name lang now st s r,
      JsMap.wf (FirstServer.rooms st) ->
      JsMap.wf (FirstServer.users r) ->
      JsMap.get socketId (FirstServer.userSessions st) = Some s ->
      FirstServer.roomId s = rid ->
      JsMap.get rid (FirstServer.rooms st) = Some r ->
      let others := JsMap.delete socketId (FirstServer.users r) in
      let info := {| FirstServer.userName := name;
                     FirstServer.userLanguage := lang;
                     FirstServer.joinedAt := now |} in
      let acts := fst (FirstServer.joinRoom socketId rid name lang now st) in
      let st' := snd (FirstServer.joinRoom socketId rid name lang now st) in
      acts =
        [SocketLeave socketId rid;
         Emit (ToOthers rid socketId)
           (FirstServer.UserLeft (FirstServer.sessionUserName s) socketId);
         SocketJoin socketId rid;
         Emit (ToSelf socketId)
           (FirstServer.RoomJoined rid
              (FirstServer.snapshot (others ++ [(socketId, info)])));
         Emit (ToOthers rid socketId)
           (FirstServer.UserJoined name lang socketId)]
      /\ (exists r',
             JsMap.get rid (FirstServer.rooms st') = Some r'
             /\ FirstServer.users r' = others ++ [(socketId, info)]
             /\ FirstServer.createdAt r' =
                if JsMap.size others =? 0 then now
                else FirstServer.createdAt r)
      /\ JsMap.get socketId (FirstServer.userSessions st') =
         Some {| FirstServer.roomId := rid;
                 FirstServer.sessionUserName := name;
                 FirstServer.sessionUserLanguage := lang |}
      /\ forall u, u <> socketId ->
           JsMap.get u (others ++ [(socketId, info)])
           = JsMap.get u (FirstServer.users r))
  /\ (forall socketId rid name lang randomName now st s room,
      JsMap.wf (SecondServer.activeRooms st) ->
      JsMap.wf room ->
      JsMap.get socketId (SecondServer.userSessions st) = Some s ->
      SecondServer.roomId s = rid ->
      JsMap.get rid (SecondServer.activeRooms st) = Some room ->
      let others := JsMap.delete socketId room in
      let stored := SecondServer.orElse name randomName in
      let info := {| SecondServer.userName := stored;
                     SecondServer.userLanguage :=
                       SecondServer.orElse lang "en";
                     SecondServer.joinedAt := now |} in
      let acts :=
        fst (SecondServer.joinRoom socketId rid name lang randomName now st) in
      let st' :=
        snd (SecondServer.joinRoom socketId rid name lang randomName now st) in
      acts =
        [SocketLeave socketId rid;
         SocketJoin socketId rid;
         Emit (ToOthers rid socketId)
           (SecondServer.UserJoined socketId stored lang now);
         Emit (ToSelf socketId)
           (SecondServer.RoomJoined rid (others ++ [(socketId, info)])
              "Connected to conversation room")]
      /\ JsMap.get rid (SecondServer.activeRooms st')
         = Some (others ++ [(socketId, info)])
      /\ JsMap.get socketId (SecondServer.userSessions st') =
         Some {| SecondServer.roomId := rid;
                 SecondServer.sessionUserName := stored;
                 SecondServer.sessionUserLanguage :=
                   SecondServer.orElse lang "en";
                 SecondServer.sessionJoinedAt := now |}).
Proof.
  split.
  - intros socketId rid name lang now st s r Hwf Hwfu Hs Hrid Hr
           others info acts st'.
    assert (Hfresh : JsMap.get socketId others = None)
      by (now apply get_delete_same).
    assert (Hset : JsMap.set socketId info others
                   = others ++ [(socketId, info)])
      by (now apply set_fresh).
    assert (Hothers : forall u, u <> socketId ->
               JsMap.get u (others ++ [(socketId, info)])
               = JsMap.get u (FirstServer.users r)).
    { intros u Hne. rewrite <- Hset.
      rewrite get_set_other by congruence.
      unfold others. now rewrite get_delete_other by congruence. }
    unfold acts, st', FirstServer.joinRoom, FirstServer.removeFromRoom.
    rewrite Hs, Hrid, Hr. cbn [FirstServer.with_users FirstServer.users].
    fold others.
    destruct (Nat.eqb_spec (JsMap.size others) 0) as [Hz|Hnz].
    + apply size_zero_empty in Hz. rewrite Hz in *.
      rewrite has_delete_same by now apply wf_set.
      rewrite get_set_same. simpl.
      rewrite !get_set_same.
      split; [reflexivity|]. split; [|split; [reflexivity|exact Hothers]].
      eexists. split; [reflexivity|]. simpl. auto.
    + rewrite has_set_same, get_set_same. simpl.
      fold info. rewrite !get_set_same, Hset.
      split; [reflexivity|]. split; [|split; [reflexivity|exact Hothers]].
      eexists. split; [reflexivity|]. simpl. auto.
  - intros socketId rid name lang randomName now st s room Hwf Hwfr Hs Hrid
           Hr others stored info acts st'.
    assert (Hfresh : JsMap.get socketId others = None)
      by (now apply get_delete_same).
    assert (Hset : JsMap.set socketId info others
                   = others ++ [(socketId, info)])
      by (now apply set_fresh).
    pose proof (updateRoomUsers_leave rid socketId st room Hwf Hr) as Hleft.
    fold others in Hleft.
    unfold acts, st', SecondServer.joinRoom. rewrite Hs, Hrid.
    cbv beta iota zeta. fold stored.
    set (st1 := SecondServer.updateRoomUsers rid socketId "leave" st) in *.
    set (sess := {| SecondServer.roomId := rid;
                    SecondServer.sessionUserName := stored;
                    SecondServer.sessionUserLanguage :=
                      SecondServer.orElse lang "en";
                    SecondServer.sessionJoinedAt := now |}).
    set (st2 := {| SecondServer.activeRooms := SecondServer.activeRooms st1;
                   SecondServer.userSessions :=
                     JsMap.set socketId sess
                       (SecondServer.userSessions st1) |}).
    assert (Hjoin :
      JsMap.get rid
        (SecondServer.activeRooms
           (SecondServer.updateRoomUsers rid socketId "join" st2))
      = Some (others ++ [(socketId, info)])).
    { rewrite (updateRoomUsers_join rid socketId st2 sess)
        by (simpl; apply get_set_same).
      replace (SecondServer.getRoomUsers rid st2) with others
        by (rewrite <- Hleft; reflexivity).
      simpl. fold info. now rewrite Hset. }
    simpl fst. simpl snd. split; [|split].
    + unfold SecondServer.getRoomUsers at 1. now rewrite Hjoin.
    + exact Hjoin.
    + rewrite updateRoomUsers_sessions. simpl. apply get_set_same.
Qed.

Lemma rejoin_is_leave_then_join_witness :
  fst (FirstServer.joinRoom "alice" "R1" "Alicia" "fr" 9 Scenario.room1)
  = [SocketLeave "alice" "R1";
     Emit (ToOthers "R1" "alice") (FirstServer.UserLeft "Alice" "alice");
     SocketJoin "alice" "R1";
     Emit (ToSelf "alice")
       (FirstServer.RoomJoined "R1"
          [("bob", "Bob", "es"); ("carol", "Carol", "en");
           ("alice", "Alicia", "fr")]);
     Emit (ToOthers "R1" "alice")
       (FirstServer.UserJoined "Alicia" "fr" "alice")]
  /\ JsMap.get "R1"
       (SecondServer.activeRooms
          (snd (SecondServer.joinRoom "alice" "R1" "Alicia" "fr" "User7" 9
                  Scenario.room2)))
     = Some [("bob", {| SecondServer.userName := "Bob";
                        SecondServer.userLanguage := "es";
                        SecondServer.joinedAt := 2 |});
             ("carol", {| SecondServer.userName := "Carol";
                          SecondServer.userLanguage := "en";
                          SecondServer.joinedAt := 3 |});
             ("alice", {| SecondServer.userName := "Alicia";
                          SecondServer.userLanguage := "fr";
                          SecondServer.joinedAt := 9 |})].
Proof.
  destruct rejoin_is_leave_then_join as [H1 H2]. split.
  - edestruct (H1 "alice" "R1" "Alicia" "fr" 9%Z Scenario.room1)
      as [Hacts _];
      [ | | reflexivity | reflexivity | reflexivity | exact Hacts];
      reflexivity.
  - edestruct (H2 "alice" "R1" "Alicia" "fr" "User7" 9%Z Scenario.room2)
      as [_ [Hroom _]];
      [ | | reflexivity | reflexivity | reflexivity | exact Hroom];
      reflexivity.
Defined.

(** C9, as stated, fails: when Alice joins room R1 again, the room is told
    that she left, her member entry moves behind Bob's and Carol's, and a
    room she occupied alone is created anew. *)
Lemma rejoin_announces_departure_and_reorders :
  In (Emit (ToOthers "R1" "alice") (FirstServer.UserLeft "Alice" "alice"))
     (fst (FirstServer.joinRoom "alice" "R1" "Alicia" "fr" 9 Scenario.room1))
  /\ option_map (fun r => JsMap.keys (FirstServer.users r))
       (JsMap.get "R1" (FirstServer.rooms Scenario.room1))
     = Some ["alice"; "bob"; "carol"]
  /\ option_map (fun r => JsMap.keys (FirstServer.users r))
       (JsMap.get "R1"
          (FirstServer.rooms
             (snd (FirstServer.joinRoom "alice" "R1" "Alicia" "fr" 9
                     Scenario.room1))))
     = Some ["bob"; "carol"; "alice"]
  /\ option_map FirstServer.createdAt
       (JsMap.get "ABC123" (FirstServer.rooms Scenario.alone)) = Some 1%Z
  /\ option_map FirstServer.createdAt
       (JsMap.get "ABC123"
          (FirstServer.rooms
             (snd (FirstServer.joinRoom "alice" "ABC123" "Alice" "en" 9
                     Scenario.alone)))) = Some 9%Z.
Proof.
  split; [simpl; auto|]. repeat split.
Qed.


(** * Further properties of the code *)

(** ** More laws of the insertion-ordered map *)

Section JsMapFilter.
Context {V : Type} (P : string * V -> bool).

Lemma keys_filter_subset (m : JsMap.t V) k :
  In k (JsMap.keys (filter P m)) -> In k (JsMap.keys m).
Proof.
  induction m as [|[k1 v1] r IH]; simpl; [tauto|].
  destruct (P (k1, v1)); simpl; tauto.
Qed.

Lemma wf_filter (m : JsMap.t V) : JsMap.wf m -> JsMap.wf (filter P m).
Proof.
  rewrite !wf_NoDup. induction m as [|[k1 v1] r IH]; simpl; intros Hd.
  - constructor.
  - inversion Hd as [|? ? Hn Hr]; subst.
    destruct (P (k1, v1)); simpl; [|now apply IH].
    constructor; [|now apply IH].
    intros Hin. apply Hn. now apply keys_filter_subset.
Qed.

Lemma get_filter (m : JsMap.t V) k :
  JsMap.wf m ->
  JsMap.get k (filter P m) =
  match JsMap.get k m with
  | Some v => if P (k, v) then Some v else None
  | None => None
  end.
Proof.
  rewrite wf_NoDup. induction m as [|[k1 v1] r IH]; simpl; intros Hd.
  - reflexivity.
  - inversion Hd as [|? ? Hn Hr]; subst.
    destruct (String.eqb_spec k k1) as [->|Hne].
    + destruct (P (k1, v1)); simpl.
      * now rewrite String.eqb_refl.
      * apply get_none_not_in. intros Hin.
        apply Hn. now apply keys_filter_subset.
    + destruct (P (k1, v1)); simpl.
      * destruct (String.eqb_spec k k1); [contradiction|now apply IH].
      * now apply IH.
Qed.
End JsMapFilter.

(** ** More on the translation cache *)

Lemma string_append_assoc (a b c : string) :
  ((a ++ b) ++ c = a ++ (b ++ c))%string.
Proof. induction a as [|x a IH]; simpl; [reflexivity|now rewrite IH]. Qed.

Section CacheMore.
Import PerformanceOptimizer.

Lemma evictOldest_wf (cache : JsMap.t entry) :
  JsMap.wf cache -> JsMap.wf (evictOldest cache).
Proof.
  intros H. unfold evictOldest.
  destruct (JsMap.first_key cache); [now apply wf_delete|exact H].
Qed.

Lemma cacheTranslation_wf now text tr src tgt o :
  JsMap.wf (translationCache o) ->
  JsMap.wf (translationCache (cacheTranslation now text tr src tgt o)).
Proof.
  intros H. unfold cacheTranslation. simpl. apply wf_set.
  destruct (_ <=? _); [now apply evictOldest_wf|exact H].
Qed.

Lemma getCachedTranslation_wf now text src tgt o :
  JsMap.wf (translationCache o) ->
  JsMap.wf (translationCache (snd (getCachedTranslation now text src tgt o))).
Proof.
  intros H. unfold getCachedTranslation.
  destruct (JsMap.get _ _); simpl; [now apply wf_set|exact H].
Qed.

Lemma getCachedTranslation_hit now text src tgt o e :
  JsMap.get (cacheKey text src tgt) (translationCache o) = Some e ->
  getCachedTranslation now text src tgt o =
  (Some (touch now e),
   {| translationCache :=
        JsMap.set (cacheKey text src tgt) (touch now e) (translationCache o);
      maxCacheSize := maxCacheSize o |}).
Proof. intros H. unfold getCachedTranslation. now rewrite H. Qed.

(** X1.  A translation just stored is found by the next lookup of the same
    text and languages, whatever the cache held and even when the store had
    to evict: the lookup returns the stored translation, counted as its
    first hit. *)
Theorem store_then_lookup_hits :
  forall now now' text tr src tgt o,
    fst (getCachedTranslation now' text src tgt
           (cacheTranslation now text tr src tgt o))
    = Some {| originalText := text; translatedText := tr; sourceLang := src;
              targetLang := tgt; timestamp := now; hitCount := 1;
              lastAccessed := Some now' |}.
Proof.
  intros. unfold getCachedTranslation, cacheTranslation. simpl.
  now rewrite get_set_same.
Qed.

(** X3.  A store touches no entry but its own and, when the cache is full,
    the oldest one: every other key keeps its entry. *)
Theorem store_keeps_other_entries :
  forall now text tr src tgt o k,
    k <> cacheKey text src tgt ->
    JsMap.size (translationCache o) < maxCacheSize o
    \/ JsMap.first_key (translationCache o) <> Some k ->
    JsMap.get k (translationCache (cacheTranslation now text tr src tgt o))
    = JsMap.get k (translationCache o).
Proof.
  intros now text tr src tgt o k Hk Hcase.
  unfold cacheTranslation. simpl.
  rewrite get_set_other by congruence.
  destruct (Nat.leb_spec (maxCacheSize o) (JsMap.size (translationCache o)))
    as [Hfull|Hroom]; [|reflexivity].
  destruct Hcase as [Hlt|Hfirst]; [lia|].
  destruct (translationCache o) as [|[k0 e0] rest]; [reflexivity|].
  rewrite evictOldest_cons. simpl in *.
  destruct (String.eqb_spec k k0) as [->|]; [congruence|reflexivity].
Qed.

(** X4.  After a sweep at time [now] the cache holds exactly the entries
    it held before that were stored at most thirty minutes earlier, each
    unchanged and in the same order of keys; no entry is added and the
    capacity is unchanged. *)
Theorem sweep_drops_exactly_the_expired :
  forall now o,
    JsMap.wf (translationCache o) ->
    (forall k,
        JsMap.get k (translationCache (cleanupCache now o)) =
        match JsMap.get k (translationCache o) with
        | Some e =>
            if (now - timestamp e <=? 1800000)%Z then Some e else None
        | None => None
        end)
    /\ JsMap.size (translationCache (cleanupCache now o))
       <= JsMap.size (translationCache o)
    /\ JsMap.wf (translationCache (cleanupCache now o))
    /\ maxCacheSize (cleanupCache now o) = maxCacheSize o.
Proof.
  intros now o Hwf. split; [|split; [|split]].
  - intros k. unfold cleanupCache. simpl. rewrite get_filter by exact Hwf.
    destruct (JsMap.get k (translationCache o)) as [e|]; [|reflexivity].
    simpl. unfold maxAge.
    destruct (Z.ltb_spec (30 * 60 * 1000) (now - timestamp e));
      destruct (Z.leb_spec (now - timestamp e) 1800000); simpl;
      try reflexivity; lia.
  - unfold cleanupCache, JsMap.size. simpl. apply filter_length_le.
  - unfold cleanupCache. simpl. now apply wf_filter.
  - reflexivity.
Qed.

(** X5.  Reading an entry does not keep it alive: a translation stored at
    [t0] and looked up afterwards is gone after any sweep later than
    thirty minutes past [t0], and the next lookup misses. *)
Theorem entry_expires_despite_lookups :
  forall t0 t1 now t2 text tr src tgt o,
    JsMap.wf (translationCache o) ->
    (now - t0 > 1800000)%Z ->
    fst (getCachedTranslation t2 text src tgt
           (cleanupCache now
              (snd (getCachedTranslation t1 text src tgt
                      (cacheTranslation t0 text tr src tgt o)))))
    = None.
Proof.
  intros t0 t1 now t2 text tr src tgt o Hwf Hold.
  set (o1 := cacheTranslation t0 text tr src tgt o).
  assert (Hwf1 : JsMap.wf (translationCache o1))
    by now apply cacheTranslation_wf.
  assert (H1 : JsMap.get (cacheKey text src tgt) (translationCache o1)
               = Some {| originalText := text; translatedText := tr;
                         sourceLang := src; targetLang := tgt;
                         timestamp := t0; hitCount := 0;
                         lastAccessed := None |})
    by (unfold o1, cacheTranslation; simpl; apply get_set_same).
  rewrite (getCachedTranslation_hit t1 text src tgt o1 _ H1). simpl.
  unfold getCachedTranslation at 1. unfold cleanupCache. simpl.
  rewrite get_filter by now apply wf_set.
  rewrite get_set_same. simpl. unfold maxAge.
  destruct (Z.ltb_spec (30 * 60 * 1000) (now - t0)); [reflexivity|lia].
Qed.

(** X6.  The cache key does not separate its three parts: a text ending
    in [_b] with source language [c] has the key of the text without that
    ending and source language [b_c].  So a lookup for the second triple
    is answered with the translation stored for the first. *)
Theorem cache_key_confuses_text_and_language :
  forall a b c d now now' tr o,
    cacheKey (a ++ "_" ++ b) c d = cacheKey a (b ++ "_" ++ c) d
    /\ fst (getCachedTranslation now' a (b ++ "_" ++ c) d
              (cacheTranslation now (a ++ "_" ++ b) tr c d o))
       = Some {| originalText := (a ++ "_" ++ b)%string;
                 translatedText := tr; sourceLang := c;
                 targetLang := d; timestamp := now; hitCount := 1;
                 lastAccessed := Some now' |}.
Proof.
  intros a b c d now now' tr o.
  assert (Hk : cacheKey (a ++ "_" ++ b) c d = cacheKey a (b ++ "_" ++ c) d).
  { unfold cacheKey.
    rewrite !string_append_assoc. reflexivity. }
  split; [exact Hk|].
  unfold getCachedTranslation. rewrite <- Hk.
  unfold cacheTranslation. simpl. now rewrite get_set_same.
Qed.
End CacheMore.

(** ** [translateSingle] over calls *)

Section SingleMore.
Import PerformanceOptimizer.

(** X7.  After a translation that the endpoint answered with success, the
    same request is served from the cache: the second [translateSingle]
    sends no request, leaves the endpoint untouched and returns the reply
    text of the first. *)
Theorem second_translation_is_served_from_cache :
  forall (B : Backend) now1 now1' now2 now2' req o
         (w w1 : backend_world B) r,
    JsMap.get (cacheKey (text req) (reqSourceLang req) (reqTargetLang req))
      (translationCache o) = None ->
    post_translate B req w = (Answered r, w1) ->
    truthy (success r) = true ->
    exists o1,
      translateSingle B now1 now1' req o w = (FromServer r, [req], o1, w1)
      /\ forall w2 : backend_world B, exists o2,
           translateSingle B now2 now2' req o1 w2
           = (FromCache (text req) (replyText r), [], o2, w2).
Proof.
  intros B now1 now1' now2 now2' req o w w1 r Hmiss Hpost Hok.
  unfold translateSingle at 1. unfold getCachedTranslation at 1.
  rewrite Hmiss, Hpost, Hok.
  eexists. split; [reflexivity|].
  intros w2. unfold translateSingle, getCachedTranslation.
  unfold cacheTranslation at 1. simpl. rewrite get_set_same. simpl.
  eexists. reflexivity.
Qed.

End SingleMore.

(** ** The audio-buffer cache *)

Section AudioLaws.
Import AudioCache.
Context {A : Type}.

(** X9.  The audio-buffer cache obeys the same discipline as the
    translation cache: a buffer just cached is returned by the next
    [getCachedAudioBuffer] for that text and language; a cache within a
    capacity of at least one entry stays within it; and below capacity no
    other key is disturbed. *)
Theorem audio_cache_round_trip_and_bound :
  forall now text language (audioBuffer : A) maxCacheSize
         (cache : JsMap.t (entry A)),
    getCachedAudioBuffer text language
      (cacheAudioBuffer now text language audioBuffer maxCacheSize cache)
    = Some {| buffer := audioBuffer; timestamp := now |}
    /\ (1 <= maxCacheSize ->
        JsMap.size cache <= maxCacheSize ->
        JsMap.size
          (cacheAudioBuffer now text language audioBuffer maxCacheSize cache)
        <= maxCacheSize)
    /\ (forall text' language',
        audioKey text' language' <> audioKey text language ->
        JsMap.size cache < maxCacheSize ->
        getCachedAudioBuffer text' language'
          (cacheAudioBuffer now text language audioBuffer maxCacheSize cache)
        = getCachedAudioBuffer text' language' cache).
Proof.
  intros now text language audioBuffer maxCacheSize cache.
  unfold getCachedAudioBuffer, cacheAudioBuffer. split; [|split].
  - apply get_set_same.
  - intros Hpos Hle.
    destruct (Nat.leb_spec maxCacheSize (JsMap.size cache)) as [Hfull|Hroom].
    + destruct cache as [|[k0 e0] rest].
      * simpl in Hfull. lia.
      * simpl JsMap.first_key. cbv iota. simpl JsMap.delete.
        rewrite String.eqb_refl, size_set.
        unfold JsMap.size in *. simpl in *.
        destruct (JsMap.has _ rest); lia.
    + rewrite size_set. destruct (JsMap.has _ _); lia.
  - intros text' language' Hne Hroom.
    rewrite get_set_other by congruence.
    destruct (Nat.leb_spec maxCacheSize (JsMap.size cache)); [lia|reflexivity].
Qed.
End AudioLaws.

(** ** The metric arrays *)

Section MetricLaws.
Import Metrics.

Lemma keepLast50_length a : List.length (keepLast50 a) <= 50.
Proof.
  unfold keepLast50. destruct (Nat.ltb_spec 50 (List.length a)).
  - rewrite length_skipn. lia.
  - exact H.
Qed.

Lemma keepLast50_suffix a : exists dropped, a = dropped ++ keepLast50 a.
Proof.
  unfold keepLast50. destruct (50 <? List.length a).
  - exists (firstn (List.length a - 50) a). symmetry. apply firstn_skipn.
  - now exists [].
Qed.

Lemma keepLast50_push a x : exists kept, keepLast50 (a ++ [x]) = kept ++ [x].
Proof.
  unfold keepLast50. destruct (50 <? List.length (a ++ [x])).
  - rewrite length_app. simpl. rewrite skipn_app.
    replace (List.length a + 1 - 50 - List.length a) with 0 by lia.
    simpl. now eexists.
  - now exists a.
Qed.

(** X10.  After [collectPerformanceMetrics] every metric array holds at
    most fifty samples; nothing but the oldest samples is dropped; and when
    the browser reports memory, the sample just taken is the one
    [getLatestMemoryUsage] returns. *)
Theorem metrics_keep_the_last_fifty :
  forall memory now m,
    Forall (fun a => List.length a <= 50)
      (fields (collectPerformanceMetrics memory now m))
    /\ Forall2 (fun before after => exists dropped, before = dropped ++ after)
         (fields m) (fields (collectPerformanceMetrics None now m))
    /\ (forall used total limit,
        getLatestMemoryUsage
          (collectPerformanceMetrics (Some (used, total, limit)) now m)
        = Some (MemorySample now used total limit)).
Proof.
  intros memory now m. split; [|split].
  - unfold fields, collectPerformanceMetrics. simpl.
    repeat (apply Forall_cons; [apply keepLast50_length|]).
    apply Forall_nil.
  - unfold fields, collectPerformanceMetrics. simpl.
    repeat (apply Forall2_cons; [apply keepLast50_suffix|]).
    apply Forall2_nil.
  - intros used total limit.
    unfold getLatestMemoryUsage, collectPerformanceMetrics. simpl.
    destruct (keepLast50_push (memoryUsage m)
                (MemorySample now used total limit)) as [kept ->].
    destruct kept as [|y kept]; simpl; [reflexivity|].
    now rewrite last_last.
Qed.
End MetricLaws.

(** ** The translate route of the second server *)

(** X11.  [POST /api/translate] answers success exactly when some backend
    returned a usable value: the translation it returns is that of the
    first such backend and is never empty or absent, and the source
    language echoed is "auto" when none was given.  It answers 500, with
    the error "Translation failed" and the message of the chain, only
    after all three backends failed. *)
Theorem translate_route_answers_with_first_usable_translation :
  forall (N : Network) text targetLanguage sourceLanguage (w : world N),
    let '(response, calls, w') :=
      SecondServerApi.postTranslate N text targetLanguage sourceLanguage w in
    genuine N calls w
    /\ w' = after_calls N calls w
    /\ match response with
       | SecondServerApi.TranslateOk original translated source tgt svc =>
           original = text
           /\ truthy translated = true
           /\ (exists earlier last,
                 calls = earlier ++ [last]
                 /\ Forall failed earlier
                 /\ settled last = Resolved translated)
           /\ source = (if String.eqb sourceLanguage "" then "auto"
                        else sourceLanguage)
           /\ tgt = targetLanguage
           /\ svc = "free"
       | SecondServerApi.TranslateFailed error message =>
           error = "Translation failed"
           /\ message = "All translation services failed"
           /\ map callee calls = [LibreTranslate; MyMemory; Lingva]
           /\ Forall failed calls
       end.
Proof.
  intros N text targetLanguage sourceLanguage w.
  unfold SecondServerApi.postTranslate, translateWithFreeServices.
  pose proof (tryServices_spec N text sourceLanguage targetLanguage
                services w) as H.
  destruct (tryServices N services text sourceLanguage targetLanguage w)
    as [[res calls] w1].
  destruct H as [_ [_ [Hgen [Hw Hres]]]].
  destruct res as [v|message].
  - destruct Hres as [earlier [last [-> [Hf [Hs Ht]]]]].
    split; [exact Hgen|]. split; [exact Hw|].
    split; [reflexivity|]. split; [exact Ht|].
    split; [now exists earlier, last|]. auto.
  - destruct Hres as [-> [Hc Hf]].
    split; [exact Hgen|]. split; [exact Hw|]. auto.
Qed.

(** ** Conversation messages on the first server *)

(** The log entry of a member and the number of events it receives come
    from one and the same run of the loop body. *)
Lemma forEach_entry_and_events {V E W : Type}
    (body : string -> V -> W -> list (action E) * W) (u : string)
    (others : forall k i w, k <> u -> events_to u (fst (body k i w)) = 0)
    (m : JsMap.t V) : forall w info,
  JsMap.wf m ->
  JsMap.get u m = Some info ->
  exists w0,
    JsMap.get u (fst (forEach body m w)) = Some (fst (body u info w0))
    /\ events_to u (flatten (fst (forEach body m w)))
       = events_to u (fst (body u info w0)).
Proof.
  induction m as [|[k i] rest IH]; intros w info Hwf; simpl; [discriminate|].
  apply wf_NoDup in Hwf. simpl in Hwf.
  inversion Hwf as [|? ? Hn Hr]; subst.
  pose proof (others k i w) as Hk.
  pose proof (forEach_events_absent body u others rest) as Habs.
  destruct (body k i w) as [acts w1] eqn:Eb.
  specialize (IH w1 info). specialize (Habs w1).
  destruct (forEach body rest w1) as [log w2]. simpl in *.
  unfold flatten in *. simpl. rewrite events_to_app.
  destruct (String.eqb_spec u k) as [->|Hne].
  - intros [= ->]. exists w. rewrite Eb. simpl.
    rewrite Habs by exact Hn. split; [reflexivity|lia].
  - intros Hg. rewrite Hk by congruence.
    apply IH; [now apply wf_NoDup|exact Hg].
Qed.

Section MessageRelay.
Import FirstServerMessages.
Context (N : Network) (socketId : string) (s : FirstServer.session)
        (text messageType : string).




End MessageRelay.

Section MessageDelivery.
Import FirstServerMessages.
Context (N : Network) (socketId : string) (s : FirstServer.session)
        (text messageType : string).

End MessageDelivery.


(** ** Sessions and memberships of the first server *)

Section MembershipLaws.
Import FirstServer Membership.

Lemma rooms_wf_set rid r rs :
  rooms_wf rs -> JsMap.wf (users r) -> rooms_wf (JsMap.set rid r rs).
Proof.
  intros [Hwf Hu] Hr. split; [now apply wf_set|].
  intros k r0. destruct (String.eqb_spec rid k) as [<-|Hne].
  - rewrite get_set_same. now intros [= <-].
  - rewrite get_set_other by exact Hne. apply Hu.
Qed.

Lemma rooms_wf_delete rid rs : rooms_wf rs -> rooms_wf (JsMap.delete rid rs).
Proof.
  intros [Hwf Hu]. split; [now apply wf_delete|].
  intros k r0. destruct (String.eqb_spec rid k) as [<-|Hne].
  - now rewrite get_delete_same.
  - rewrite get_delete_other by exact Hne. apply Hu.
Qed.

Lemma removeFromRoom_rooms_wf x rid name rs :
  rooms_wf rs -> rooms_wf (snd (removeFromRoom x rid name rs)).
Proof.
  intros H. unfold removeFromRoom.
  destruct (JsMap.get rid rs) as [r|] eqn:Er; simpl; [|exact H].
  assert (Hr : JsMap.wf (JsMap.delete x (users r)))
    by (apply wf_delete; now apply (proj2 H rid)).
  destruct (_ =? 0); [apply rooms_wf_delete|]; now apply rooms_wf_set.
Qed.

Lemma member_removeFromRoom x rid name rs rid0 u :
  rooms_wf rs ->
  member (snd (removeFromRoom x rid name rs)) rid0 u =
  if String.eqb rid0 rid && String.eqb u x then None else member rs rid0 u.
Proof.
  intros [Hwf Hu]. unfold removeFromRoom, member.
  destruct (JsMap.get rid rs) as [r|] eqn:Er; simpl.
  - specialize (Hu rid r Er).
    destruct (Nat.eqb_spec (JsMap.size (JsMap.delete x (users r))) 0)
      as [Hz|Hnz].
    + destruct (String.eqb_spec rid0 rid) as [->|Hne]; simpl.
      * rewrite get_delete_same by now apply wf_set. rewrite Er.
        destruct (String.eqb_spec u x) as [->|Hux]; [reflexivity|].
        rewrite <- (get_delete_other x u (users r)) by congruence.
        apply size_zero_empty in Hz. now rewrite Hz.
      * now rewrite get_delete_other, get_set_other by congruence.
    + destruct (String.eqb_spec rid0 rid) as [->|Hne]; simpl.
      * rewrite get_set_same, Er. simpl.
        destruct (String.eqb_spec u x) as [->|Hux].
        -- now apply get_delete_same.
        -- apply get_delete_other. congruence.
      * now rewrite get_set_other by congruence.
  - destruct (String.eqb_spec rid0 rid) as [->|Hne]; simpl; [|reflexivity].
    rewrite Er. now destruct (String.eqb u x).
Qed.

Lemma entered_rooms_wf x rid info now rs1 :
  rooms_wf rs1 -> rooms_wf (entered x rid info now rs1).
Proof.
  intros H. unfold entered, JsMap.has.
  destruct (JsMap.get rid rs1) as [r|] eqn:Er.
  - rewrite Er. apply rooms_wf_set; [exact H|]. simpl.
    apply wf_set. now apply (proj2 H rid).
  - rewrite get_set_same. simpl.
    apply rooms_wf_set; [|reflexivity].
    apply rooms_wf_set; [exact H|reflexivity].
Qed.

Lemma member_entered x rid info now rs1 rid0 u :
  member (entered x rid info now rs1) rid0 u =
  if String.eqb rid0 rid && String.eqb u x then Some info
  else member rs1 rid0 u.
Proof.
  unfold entered, member, JsMap.has.
  destruct (JsMap.get rid rs1) as [r|] eqn:Er.
  - rewrite Er.
    destruct (String.eqb_spec rid0 rid) as [->|Hne]; simpl.
    + rewrite get_set_same, Er. simpl.
      destruct (String.eqb_spec u x) as [->|Hux].
      * apply get_set_same.
      * apply get_set_other. congruence.
    + now rewrite get_set_other by congruence.
  - rewrite get_set_same. simpl.
    destruct (String.eqb_spec rid0 rid) as [->|Hne]; simpl.
    + rewrite get_set_same, Er. reflexivity.
    + now rewrite !get_set_other by congruence.
Qed.

(** [join-room] in two halves. *)
Lemma joinRoom_state x rid name lang now st :
  snd (joinRoom x rid name lang now st) =
  {| rooms :=
       entered x rid
         {| userName := name; userLanguage := lang; joinedAt := now |} now
         match JsMap.get x (userSessions st) with
         | Some prev =>
             snd (removeFromRoom x (roomId prev) (sessionUserName prev)
                    (rooms st))
         | None => rooms st
         end;
     userSessions :=
       JsMap.set x
         {| roomId := rid; sessionUserName := name;
            sessionUserLanguage := lang |} (userSessions st) |}.
Proof.
  unfold joinRoom, entered.
  destruct (JsMap.get x (userSessions st)) as [prev|].
  - destruct (removeFromRoom x (roomId prev) (sessionUserName prev)
                (rooms st)) as [acts rs1]. simpl.
    destruct (JsMap.get rid _) as [r|] eqn:Er; simpl; [reflexivity|].
    exfalso. exact (get_after_has rid _ rs1 Er).
  - destruct (JsMap.get rid _) as [r|] eqn:Er; simpl; [reflexivity|].
    exfalso. exact (get_after_has rid _ (rooms st) Er).
Qed.

Lemma well_formed_rooms st : well_formed st -> rooms_wf (rooms st).
Proof. intros [H1 [H2 _]]. now split. Qed.

Lemma joinRoom_well_formed x rid name lang now st :
  well_formed st -> well_formed (snd (joinRoom x rid name lang now st)).
Proof.
  intros Hwf. pose proof (well_formed_rooms st Hwf) as Hr.
  destruct Hwf as [_ [_ Hs]]. rewrite joinRoom_state.
  assert (H : rooms_wf
            (entered x rid
               {| userName := name; userLanguage := lang; joinedAt := now |}
               now
               match JsMap.get x (userSessions st) with
               | Some prev =>
                   snd (removeFromRoom x (roomId prev) (sessionUserName prev)
                          (rooms st))
               | None => rooms st
               end)).
  { apply entered_rooms_wf.
    destruct (JsMap.get x (userSessions st));
      [now apply removeFromRoom_rooms_wf|exact Hr]. }
  destruct H as [H1 H2]. split; [exact H1|]. split; [exact H2|].
  simpl. now apply wf_set.
Qed.

Lemma joinRoom_member x rid name lang now st rid0 u :
  well_formed st ->
  member (rooms (snd (joinRoom x rid name lang now st))) rid0 u =
  if String.eqb rid0 rid && String.eqb u x
  then Some {| userName := name; userLanguage := lang; joinedAt := now |}
  else
    match JsMap.get x (userSessions st) with
    | Some prev =>
        if String.eqb rid0 (roomId prev) && String.eqb u x then None
        else member (rooms st) rid0 u
    | None => member (rooms st) rid0 u
    end.
Proof.
  intros Hwf. pose proof (well_formed_rooms st Hwf) as Hr.
  rewrite joinRoom_state. simpl. rewrite member_entered.
  destruct (String.eqb rid0 rid && String.eqb u x); [reflexivity|].
  destruct (JsMap.get x (userSessions st)) as [prev|]; [|reflexivity].
  now apply member_removeFromRoom.
Qed.

Lemma joinRoom_coherent x rid name lang now st :
  well_formed st -> coherent st ->
  coherent (snd (joinRoom x rid name lang now st)).
Proof.
  intros Hwf [H1 H2]. split.
  - intros u s. rewrite joinRoom_member by exact Hwf.
    rewrite joinRoom_state. simpl.
    destruct (String.eqb_spec u x) as [->|Hux].
    + rewrite get_set_same. intros [= <-]. simpl.
      rewrite String.eqb_refl. simpl. eexists. split; [reflexivity|].
      simpl. auto.
    + rewrite get_set_other by congruence. intros Hs.
      rewrite andb_false_r.
      destruct (JsMap.get x (userSessions st));
        rewrite ?andb_false_r; now apply H1.
  - intros rid0 u info. rewrite joinRoom_member by exact Hwf.
    rewrite joinRoom_state. simpl.
    destruct (String.eqb_spec u x) as [->|Hux].
    + rewrite get_set_same, !andb_true_r.
      destruct (String.eqb_spec rid0 rid) as [->|Hne].
      * intros _. eexists. split; [reflexivity|reflexivity].
      * destruct (JsMap.get x (userSessions st)) as [prev|] eqn:Ep.
        -- destruct (String.eqb_spec rid0 (roomId prev)); [discriminate|].
           intros Hm. destruct (H2 _ _ _ Hm) as [s' [Hs' Hr']].
           congruence.
        -- intros Hm. destruct (H2 _ _ _ Hm) as [s' [Hs' Hr']]. congruence.
    + rewrite get_set_other by congruence. rewrite andb_false_r.
      destruct (JsMap.get x (userSessions st));
        rewrite ?andb_false_r; apply H2.
Qed.

Lemma changeLanguage_well_formed x language st :
  well_formed st -> well_formed (snd (changeLanguage x language st)).
Proof.
  intros Hwf. pose proof (well_formed_rooms st Hwf) as Hr.
  destruct Hwf as [H1 [H2 H3]]. unfold changeLanguage.
  destruct (JsMap.get x (userSessions st)) as [s|]; simpl;
    [|now repeat split].
  assert (Hs : JsMap.wf (JsMap.set x
                 {| roomId := roomId s; sessionUserName := sessionUserName s;
                    sessionUserLanguage := language |} (userSessions st)))
    by now apply wf_set.
  destruct (JsMap.get (roomId s) (rooms st)) as [r|] eqn:Er; simpl;
    [|now repeat split].
  destruct (JsMap.get x (users r)) as [info|]; simpl; [|now repeat split].
  destruct (rooms_wf_set (roomId s)
              (with_users r
                 (JsMap.set x
                    {| userName := userName info; userLanguage := language;
                       joinedAt := joinedAt info |} (users r)))
              (rooms st) Hr) as [Ha Hb].
  { simpl. apply wf_set. now apply (H2 (roomId s)). }
  now repeat split.
Qed.

Lemma changeLanguage_member x language st s info rid0 u :
  JsMap.get x (userSessions st) = Some s ->
  member (rooms st) (roomId s) x = Some info ->
  member (rooms (snd (changeLanguage x language st))) rid0 u =
  if String.eqb rid0 (roomId s) && String.eqb u x
  then Some {| userName := userName info; userLanguage := language;
               joinedAt := joinedAt info |}
  else member (rooms st) rid0 u.
Proof.
  intros Hs Hm. unfold changeLanguage. rewrite Hs.
  unfold member in Hm.
  destruct (JsMap.get (roomId s) (rooms st)) as [r|] eqn:Er; [|discriminate].
  rewrite Hm. simpl. unfold member.
  destruct (String.eqb_spec rid0 (roomId s)) as [->|Hne]; simpl.
  - rewrite get_set_same, Er. simpl.
    destruct (String.eqb_spec u x) as [->|Hux].
    + apply get_set_same.
    + apply get_set_other. congruence.
  - now rewrite get_set_other by congruence.
Qed.

Lemma changeLanguage_sessions x language st s :
  JsMap.get x (userSessions st) = Some s ->
  userSessions (snd (changeLanguage x language st)) =
  JsMap.set x {| roomId := roomId s; sessionUserName := sessionUserName s;
                 sessionUserLanguage := language |} (userSessions st).
Proof.
  intros Hs. unfold changeLanguage. rewrite Hs.
  destruct (JsMap.get (roomId s) (rooms st)) as [r|]; [|reflexivity].
  now destruct (JsMap.get x (users r)).
Qed.

Lemma changeLanguage_coherent x language st :
  coherent st -> coherent (snd (changeLanguage x language st)).
Proof.
  intros [H1 H2].
  destruct (JsMap.get x (userSessions st)) as [s|] eqn:Es.
  2:{ unfold changeLanguage. rewrite Es. now split. }
  destruct (H1 x s Es) as [info [Hm [Hn Hl]]].
  split.
  - intros u s0.
    rewrite (changeLanguage_sessions x language st s Es).
    rewrite (changeLanguage_member x language st s info) by assumption.
    destruct (String.eqb_spec u x) as [->|Hux].
    + rewrite get_set_same. intros [= <-]. simpl.
      rewrite String.eqb_refl. simpl. eexists. split; [reflexivity|].
      simpl. auto.
    + rewrite get_set_other by congruence. rewrite andb_false_r.
      apply H1.
  - intros rid0 u i.
    rewrite (changeLanguage_sessions x language st s Es).
    rewrite (changeLanguage_member x language st s info) by assumption.
    destruct (String.eqb_spec u x) as [->|Hux].
    + rewrite get_set_same, andb_true_r.
      destruct (String.eqb_spec rid0 (roomId s)) as [->|Hne].
      * intros _. eexists. split; reflexivity.
      * intros Hm'. destruct (H2 _ _ _ Hm') as [s' [Hs' Hr']]. congruence.
    + rewrite get_set_other by congruence. rewrite andb_false_r. apply H2.
Qed.

Lemma disconnect_well_formed x st :
  well_formed st -> well_formed (snd (disconnect x st)).
Proof.
  intros Hwf. pose proof (well_formed_rooms st Hwf) as Hr.
  destruct Hwf as [H1 [H2 H3]]. unfold disconnect.
  destruct (JsMap.get x (userSessions st)) as [s|]; simpl;
    [|now repeat split].
  pose proof (removeFromRoom_rooms_wf x (roomId s) (sessionUserName s)
                (rooms st) Hr) as [Ha Hb].
  destruct (removeFromRoom _ _ _ _) as [acts rs]. simpl in *.
  split; [exact Ha|]. split; [exact Hb|]. now apply wf_delete.
Qed.

Lemma disconnect_state x st s :
  JsMap.get x (userSessions st) = Some s ->
  snd (disconnect x st) =
  {| rooms := snd (removeFromRoom x (roomId s) (sessionUserName s)
                     (rooms st));
     userSessions := JsMap.delete x (userSessions st) |}.
Proof.
  intros Hs. unfold disconnect. rewrite Hs.
  now destruct (removeFromRoom _ _ _ _).
Qed.

Lemma disconnect_coherent x st :
  well_formed st -> coherent st -> coherent (snd (disconnect x st)).
Proof.
  intros Hwf [H1 H2]. pose proof (well_formed_rooms st Hwf) as Hr.
  destruct Hwf as [_ [_ Hws]].
  destruct (JsMap.get x (userSessions st)) as [s|] eqn:Es.
  2:{ unfold disconnect. rewrite Es. now split. }
  rewrite (disconnect_state x st s Es). split; simpl.
  - intros u s0. rewrite member_removeFromRoom by exact Hr.
    destruct (String.eqb_spec u x) as [->|Hux].
    + now rewrite get_delete_same.
    + rewrite get_delete_other by congruence. rewrite andb_false_r.
      apply H1.
  - intros rid0 u i. rewrite member_removeFromRoom by exact Hr.
    destruct (String.eqb_spec u x) as [->|Hux].
    + rewrite andb_true_r.
      destruct (String.eqb_spec rid0 (roomId s)) as [->|Hne]; [discriminate|].
      intros Hm. destruct (H2 _ _ _ Hm) as [s' [Hs' Hr']]. congruence.
    + rewrite get_delete_other by congruence. rewrite andb_false_r.
      apply H2.
Qed.

Lemma step_coherent i st :
  well_formed st -> coherent st ->
  well_formed (step i st) /\ coherent (step i st).
Proof.
  intros Hwf Hc. destruct i; simpl.
  - split; [now apply joinRoom_well_formed|now apply joinRoom_coherent].
  - split; [now apply changeLanguage_well_formed
           |now apply changeLanguage_coherent].
  - split; [now apply disconnect_well_formed|now apply disconnect_coherent].
Qed.

Lemma run_coherent inputs : forall st,
  well_formed st -> coherent st ->
  well_formed (run inputs st) /\ coherent (run inputs st).
Proof.
  unfold run.
  induction inputs as [|i inputs IH]; intros st Hwf Hc; simpl; [tauto|].
  destruct (step_coherent i st Hwf Hc). now apply IH.
Qed.

Lemma initial_coherent : well_formed initial /\ coherent initial.
Proof.
  split.
  - split; [reflexivity|]. split; [|reflexivity]. intros rid r. discriminate.
  - split.
    + intros u s. discriminate.
    + intros rid u info. discriminate.
Qed.
End MembershipLaws.

(** ** Rooms and their members *)

Section RoomLifecycle.
Import FirstServer Membership.

Lemma removeFromRoom_get_other x rid name rs rid0 :
  rid0 <> rid ->
  JsMap.get rid0 (snd (removeFromRoom x rid name rs)) = JsMap.get rid0 rs.
Proof.
  intros Hne. unfold removeFromRoom.
  destruct (JsMap.get rid rs) as [r|]; simpl; [|reflexivity].
  destruct (_ =? 0).
  - now rewrite get_delete_other, get_set_other by congruence.
  - now rewrite get_set_other by congruence.
Qed.

(** After a leave the room is gone when it has no member left and is
    otherwise the same room with the remaining members. *)
Lemma removeFromRoom_get_same x rid name rs r :
  JsMap.wf rs ->
  JsMap.get rid rs = Some r ->
  JsMap.get rid (snd (removeFromRoom x rid name rs)) =
  match JsMap.delete x (users r) with
  | [] => None
  | rest => Some (with_users r rest)
  end.
Proof.
  intros Hwf Hr. unfold removeFromRoom. rewrite Hr. simpl.
  destruct (JsMap.delete x (users r)) as [|kv rest] eqn:Ed; simpl.
  - apply get_delete_same. now apply wf_set.
  - apply get_set_same.
Qed.

Lemma entered_get_other x rid info now rs1 rid0 :
  rid0 <> rid ->
  JsMap.get rid0 (entered x rid info now rs1) = JsMap.get rid0 rs1.
Proof.
  intros Hne. unfold entered, JsMap.has.
  destruct (JsMap.get rid rs1) as [r|] eqn:Er.
  - rewrite Er. now rewrite get_set_other by congruence.
  - rewrite get_set_same. now rewrite !get_set_other by congruence.
Qed.

(** In a state reached from the empty one, the registered rooms are the
    rooms of the sessions. *)
Lemma registered_iff_occupied inputs rid :
  let st := run inputs initial in
  JsMap.has rid (rooms st) = true
  <-> exists u s,
        JsMap.get u (userSessions st) = Some s /\ roomId s = rid.
Proof.
  cbv zeta.
  destruct (run_coherent inputs initial (proj1 initial_coherent)
              (proj2 initial_coherent)) as [_ [Hc1 Hc2]].
  assert (Hpop : populated (rooms (run inputs initial))).
  { apply steps_keep; [reflexivity|]. intros k r. discriminate. }
  unfold JsMap.has. split.
  - destruct (JsMap.get rid (rooms (run inputs initial))) as [r|] eqn:Er;
      [intros _|discriminate].
    pose proof (Hpop rid r Er) as Hsz.
    destruct (users r) as [|[u info] rest] eqn:Eu;
      [unfold JsMap.size in Hsz; simpl in Hsz; lia|].
    destruct (Hc2 rid u info) as [s Hs].
    { unfold member. rewrite Er, Eu. simpl. now rewrite String.eqb_refl. }
    now exists u, s.
  - intros [u [s [Hs Hrid]]].
    destruct (Hc1 u s Hs) as [info [Hm _]]. unfold member in Hm.
    rewrite Hrid in Hm.
    now destruct (JsMap.get rid (rooms (run inputs initial))).
Qed.
End RoomLifecycle.

(** C6 (amended).  On the first server, in every state reached from the
    empty one through join-room, change-language and disconnect, a room is
    registered if and only if some connection's session is in it, and
    every registered room has at least one member.  A connection that
    disconnects, or joins another room, leaves every other room as it
    was; the room it leaves stays registered, with the remaining members,
    when there are any, and is deleted on the spot when there are none,
    after which a room-info query for it answers 404 "Room not found".
    The room-creation request, however, registers a room without any
    member, and room-info then reports it with zero users. *)
Theorem rooms_have_members_unless_created_empty :
  (forall inputs st,
      JsMap.wf (FirstServer.rooms st) ->
      FirstServer.populated (FirstServer.rooms st) ->
      FirstServer.populated
        (FirstServer.rooms
           (fold_left (fun st i => FirstServer.step i st) inputs st)))
  /\ (forall inputs,
      FirstServer.populated
        (FirstServer.rooms
           (fold_left (fun st i => FirstServer.step i st) inputs
              FirstServer.initial)))
  /\ (forall inputs rid,
      let st :=
        fold_left (fun st i => FirstServer.step i st) inputs
          FirstServer.initial in
      JsMap.has rid (FirstServer.rooms st) = true
      <-> exists u s,
            JsMap.get u (FirstServer.userSessions st) = Some s
            /\ FirstServer.roomId s = rid)
  /\ (forall socketId st s r,
      JsMap.wf (FirstServer.rooms st) ->
      JsMap.get socketId (FirstServer.userSessions st) = Some s ->
      JsMap.get (FirstServer.roomId s) (FirstServer.rooms st) = Some r ->
      let remaining := JsMap.delete socketId (FirstServer.users r) in
      let left :=
        match remaining with
        | [] => None
        | _ => Some (FirstServer.with_users r remaining)
        end in
      (JsMap.get (FirstServer.roomId s)
         (FirstServer.rooms (snd (FirstServer.disconnect socketId st)))
       = left
       /\ forall rid,
           rid <> FirstServer.roomId s ->
           JsMap.get rid
             (FirstServer.rooms (snd (FirstServer.disconnect socketId st)))
           = JsMap.get rid (FirstServer.rooms st))
      /\ forall rid name lang now,
          rid <> FirstServer.roomId s ->
          JsMap.get (FirstServer.roomId s)
            (FirstServer.rooms
               (snd (FirstServer.joinRoom socketId rid name lang now st)))
          = left
          /\ forall rid0,
              rid0 <> FirstServer.roomId s ->
              rid0 <> rid ->
              JsMap.get rid0
                (FirstServer.rooms
                   (snd (FirstServer.joinRoom socketId rid name lang now
                           st)))
              = JsMap.get rid0 (FirstServer.rooms st))
  /\ (forall socketId st s r info,
      JsMap.wf (FirstServer.rooms st) ->
      JsMap.get socketId (FirstServer.userSessions st) = Some s ->
      JsMap.get (FirstServer.roomId s) (FirstServer.rooms st) = Some r ->
      FirstServer.users r = [(socketId, info)] ->
      FirstServer.getRoom (FirstServer.roomId s)
        (snd (FirstServer.disconnect socketId st))
      = FirstServer.NotFound "Room not found"
      /\ forall rid name lang now,
          rid <> FirstServer.roomId s ->
          FirstServer.getRoom (FirstServer.roomId s)
            (snd (FirstServer.joinRoom socketId rid name lang now st))
          = FirstServer.NotFound "Room not found")
  /\ (forall rid now st,
      FirstServer.getRoom rid (snd (FirstServer.postRoom rid now st))
      = FirstServer.Json
          {| FirstServer.infoRoomId := rid;
             FirstServer.userCount := 0;
             FirstServer.infoUsers := [];
             FirstServer.infoCreatedAt := now |}).
Proof.
  assert (Hleave : forall socketId st s r,
    JsMap.wf (FirstServer.rooms st) ->
    JsMap.get socketId (FirstServer.userSessions st) = Some s ->
    JsMap.get (FirstServer.roomId s) (FirstServer.rooms st) = Some r ->
    (JsMap.get (FirstServer.roomId s)
       (FirstServer.rooms (snd (FirstServer.disconnect socketId st)))
     = match JsMap.delete socketId (FirstServer.users r) with
       | [] => None
       | rest => Some (FirstServer.with_users r rest)
       end
     /\ forall rid,
         rid <> FirstServer.roomId s ->
         JsMap.get rid
           (FirstServer.rooms (snd (FirstServer.disconnect socketId st)))
         = JsMap.get rid (FirstServer.rooms st))
    /\ forall rid name lang now,
        rid <> FirstServer.roomId s ->
        JsMap.get (FirstServer.roomId s)
          (FirstServer.rooms
             (snd (FirstServer.joinRoom socketId rid name lang now st)))
        = match JsMap.delete socketId (FirstServer.users r) with
          | [] => None
          | rest => Some (FirstServer.with_users r rest)
          end
        /\ forall rid0,
            rid0 <> FirstServer.roomId s ->
            rid0 <> rid ->
            JsMap.get rid0
              (FirstServer.rooms
                 (snd (FirstServer.joinRoom socketId rid name lang now st)))
            = JsMap.get rid0 (FirstServer.rooms st)).
  { intros socketId st s r Hwf Hs Hr. split.
    - rewrite (disconnect_state socketId st s Hs). simpl. split.
      + now apply removeFromRoom_get_same.
      + intros rid Hne. now apply removeFromRoom_get_other.
    - intros rid name lang now Hne. rewrite joinRoom_state, Hs. simpl.
      split.
      + rewrite entered_get_other by congruence.
        now apply removeFromRoom_get_same.
      + intros rid0 Hn1 Hn2. rewrite entered_get_other by exact Hn2.
        now apply removeFromRoom_get_other. }
  split; [|split; [|split; [|split; [|split]]]].
  - intros inputs st Hwf Hpop. now apply steps_keep.
  - intros inputs. apply steps_keep; [reflexivity|].
    intros rid r. discriminate.
  - intros inputs rid. exact (registered_iff_occupied inputs rid).
  - intros socketId st s r Hwf Hs Hr remaining left.
    pose proof (Hleave socketId st s r Hwf Hs Hr) as H.
    subst left remaining.
    destruct (JsMap.delete socketId (FirstServer.users r)); exact H.
  - intros socketId st s r info Hwf Hs Hr Hu.
    destruct (Hleave socketId st s r Hwf Hs Hr) as [[Hd _] Hj].
    rewrite Hu in Hd, Hj. simpl in Hd, Hj.
    rewrite String.eqb_refl in Hd, Hj. split.
    + unfold FirstServer.getRoom. now rewrite Hd.
    + intros rid name lang now Hne. unfold FirstServer.getRoom.
      now rewrite (proj1 (Hj rid name lang now Hne)).
  - intros rid now st. unfold FirstServer.getRoom, FirstServer.postRoom.
    simpl. now rewrite get_set_same.
Qed.

Lemma rooms_have_members_unless_created_empty_witness :
  FirstServer.getRoom "ABC123" (snd (FirstServer.disconnect "alice"
                                       Scenario.alone))
  = FirstServer.NotFound "Room not found"
  /\ FirstServer.populated
       (FirstServer.rooms
          (fold_left (fun st i => FirstServer.step i st)
             [FirstServer.Disconnect "bob"] Scenario.room1))
  /\ JsMap.get "R1"
       (FirstServer.rooms (snd (FirstServer.disconnect "bob"
                                  Scenario.room1)))
     = Some {| FirstServer.id := "R1";
               FirstServer.users :=
                 [("alice", {| FirstServer.userName := "Alice";
                               FirstServer.userLanguage := "en";
                               FirstServer.joinedAt := 1 |});
                  ("carol", {| FirstServer.userName := "Carol";
                               FirstServer.userLanguage := "en";
                               FirstServer.joinedAt := 3 |})];
               FirstServer.createdAt := 1 |}.
Proof.
  destruct rooms_have_members_unless_created_empty
    as [H1 [_ [_ [H4 [H5 _]]]]].
  split; [|split].
  - exact (proj1 (H5 "alice" Scenario.alone _ _ _
                    eq_refl eq_refl eq_refl eq_refl)).
  - apply H1; [reflexivity|].
    intros rid r. simpl.
    destruct (String.eqb rid "R1"); [|discriminate].
    intros [= <-]. simpl. lia.
  - exact (proj1 (proj1 (H4 "bob" Scenario.room1 _ _
                           eq_refl eq_refl eq_refl))).
Defined.

(** C6, as stated, fails: after the room-creation request the registry
    holds a room with no member, and room-info reports it. *)
Lemma created_room_is_registered_without_members :
  FirstServer.getRoom "3F2A9C1B"
    (snd (FirstServer.postRoom "3F2A9C1B" 7 FirstServer.initial))
  = FirstServer.Json
      {| FirstServer.infoRoomId := "3F2A9C1B";
         FirstServer.userCount := 0;
         FirstServer.infoUsers := [];
         FirstServer.infoCreatedAt := 7 |}
  /\ ~ FirstServer.populated
         (FirstServer.rooms
            (snd (FirstServer.postRoom "3F2A9C1B" 7 FirstServer.initial))).
Proof.
  split; [reflexivity|].
  intros H. specialize (H "3F2A9C1B" _ eq_refl). simpl in H. lia.
Qed.

(** X13.  On the first server, in every state reached from the empty one
    by join-room, change-language and disconnect events, sessions and
    memberships agree: the socket of a session is listed in the session's
    room under the session's name and language (so the language the relay
    reads for a member is that member's current language), every listed
    socket has a session for that room, and no socket is listed in two
    rooms.  The agreement is kept from any well-formed state that has it. *)
Theorem sessions_and_memberships_agree :
  (forall inputs st,
      Membership.well_formed st -> Membership.coherent st ->
      Membership.well_formed (Membership.run inputs st)
      /\ Membership.coherent (Membership.run inputs st))
  /\ (forall inputs,
      let st := Membership.run inputs FirstServer.initial in
      Membership.coherent st
      /\ forall u rid1 rid2 i1 i2,
          Membership.member (FirstServer.rooms st) rid1 u = Some i1 ->
          Membership.member (FirstServer.rooms st) rid2 u = Some i2 ->
          rid1 = rid2).
Proof.
  split.
  - intros inputs st. apply run_coherent.
  - intros inputs st.
    destruct initial_coherent as [Hwf Hc].
    destruct (run_coherent inputs FirstServer.initial Hwf Hc) as [_ Hcoh].
    fold st in Hcoh. split; [exact Hcoh|].
    intros u rid1 rid2 i1 i2 H1 H2. destruct Hcoh as [_ Hm].
    destruct (Hm _ _ _ H1) as [s1 [Hs1 <-]].
    destruct (Hm _ _ _ H2) as [s2 [Hs2 <-]]. congruence.
Qed.

(** X14.  Join-room moves the connection: afterwards it is listed in the
    room joined under the name and language given, its session names that
    room, it is no longer listed in the room of its previous session when
    that was another room, every other socket keeps its memberships and
    session, and a room-info query for the room joined answers with at
    least one user and lists the connection. *)
Theorem join_moves_the_connection :
  forall x rid name lang now st,
    Membership.well_formed st ->
    let st' := snd (FirstServer.joinRoom x rid name lang now st) in
    let info := {| FirstServer.userName := name;
                   FirstServer.userLanguage := lang;
                   FirstServer.joinedAt := now |} in
    Membership.member (FirstServer.rooms st') rid x = Some info
    /\ JsMap.get x (FirstServer.userSessions st')
       = Some {| FirstServer.roomId := rid;
                 FirstServer.sessionUserName := name;
                 FirstServer.sessionUserLanguage := lang |}
    /\ (forall prev,
        JsMap.get x (FirstServer.userSessions st) = Some prev ->
        FirstServer.roomId prev <> rid ->
        Membership.member (FirstServer.rooms st') (FirstServer.roomId prev) x
        = None)
    /\ (forall rid0 u,
        u <> x ->
        Membership.member (FirstServer.rooms st') rid0 u
        = Membership.member (FirstServer.rooms st) rid0 u
        /\ JsMap.get u (FirstServer.userSessions st')
           = JsMap.get u (FirstServer.userSessions st))
    /\ exists body,
        FirstServer.getRoom rid st' = FirstServer.Json body
        /\ 1 <= FirstServer.userCount body
        /\ In (x, name, lang, now) (FirstServer.infoUsers body).
Proof.
  intros x rid name lang now st Hwf st' info.
  assert (Hin : Membership.member (FirstServer.rooms st') rid x = Some info).
  { unfold st'. rewrite joinRoom_member by exact Hwf.
    now rewrite !String.eqb_refl. }
  split; [exact Hin|]. split; [|split; [|split]].
  - unfold st'. rewrite joinRoom_state. simpl. apply get_set_same.
  - intros prev Hp Hne. unfold st'. rewrite joinRoom_member by exact Hwf.
    rewrite Hp, !String.eqb_refl.
    destruct (String.eqb_spec (FirstServer.roomId prev) rid);
      [contradiction|reflexivity].
  - intros rid0 u Hux. unfold st'. split.
    + rewrite joinRoom_member by exact Hwf.
      destruct (String.eqb_spec u x); [contradiction|].
      rewrite andb_false_r.
      destruct (JsMap.get x (FirstServer.userSessions st));
        now rewrite ?andb_false_r.
    + rewrite joinRoom_state. simpl. apply get_set_other. congruence.
  - unfold Membership.member in Hin. unfold FirstServer.getRoom.
    destruct (JsMap.get rid (FirstServer.rooms st')) as [r|]; [|discriminate].
    eexists. split; [reflexivity|]. simpl. split.
    + destruct (FirstServer.users r); [discriminate|simpl; lia].
    + apply get_in in Hin.
      apply (in_map (fun kv =>
               (fst kv, FirstServer.userName (snd kv),
                FirstServer.userLanguage (snd kv),
                FirstServer.joinedAt (snd kv)))) in Hin.
      exact Hin.
Qed.

(** X15.  After a disconnect the socket has no session and is listed in no
    room, while every other socket keeps its memberships and session; an
    utterance from the disconnected socket is discarded, and an utterance
    from anyone else sends it nothing.  A disconnect of a socket without a
    session does nothing. *)
Theorem disconnect_removes_the_connection :
  forall (N : Network) x st,
    Membership.well_formed st -> Membership.coherent st ->
    let st' := snd (FirstServer.disconnect x st) in
    JsMap.get x (FirstServer.userSessions st') = None
    /\ (forall rid, Membership.member (FirstServer.rooms st') rid x = None)
    /\ (forall rid0 u,
        u <> x ->
        Membership.member (FirstServer.rooms st') rid0 u
        = Membership.member (FirstServer.rooms st) rid0 u
        /\ JsMap.get u (FirstServer.userSessions st')
           = JsMap.get u (FirstServer.userSessions st))
    /\ (forall text lang (w : world N),
        FirstServer.liveSpeech N x text lang st' w = ([], w))
    /\ (forall sender text lang (w : world N),
        events_to x
          (flatten (fst (FirstServer.liveSpeech N sender text lang st' w)))
        = 0)
    /\ (JsMap.get x (FirstServer.userSessions st) = None ->
        FirstServer.disconnect x st = ([], st)).
Proof.
  intros N x st Hwf Hc st'.
  pose proof (disconnect_well_formed x st Hwf) as Hwf'.
  pose proof (disconnect_coherent x st Hwf Hc) as Hc'.
  fold st' in Hwf', Hc'.
  assert (Hnone : JsMap.get x (FirstServer.userSessions st') = None).
  { unfold st', FirstServer.disconnect.
    destruct (JsMap.get x (FirstServer.userSessions st)) as [s|] eqn:Es.
    - destruct (FirstServer.removeFromRoom _ _ _ _). simpl.
      apply get_delete_same. apply Hwf.
    - exact Es. }
  assert (Hout : forall rid,
             Membership.member (FirstServer.rooms st') rid x = None).
  { intros rid.
    destruct (Membership.member (FirstServer.rooms st') rid x) eqn:Em;
      [|reflexivity].
    destruct (proj2 Hc' _ _ _ Em) as [s [Hs _]]. congruence. }
  split; [exact Hnone|]. split; [exact Hout|].
  split; [|split; [|split]].
  - intros rid0 u Hux. unfold st'.
    destruct (JsMap.get x (FirstServer.userSessions st)) as [s|] eqn:Es.
    + rewrite (disconnect_state x st s Es). simpl.
      rewrite member_removeFromRoom by now apply well_formed_rooms.
      destruct (String.eqb_spec u x); [contradiction|].
      rewrite andb_false_r. split; [reflexivity|].
      apply get_delete_other. congruence.
    + unfold FirstServer.disconnect. rewrite Es. now split.
  - intros text lang w. unfold FirstServer.liveSpeech. now rewrite Hnone.
  - intros sender text lang w. unfold FirstServer.liveSpeech.
    destruct (JsMap.get sender (FirstServer.userSessions st')) as [s|];
      [|reflexivity].
    destruct (JsMap.get (FirstServer.roomId s) (FirstServer.rooms st'))
      as [r|] eqn:Er; [|reflexivity].
    rewrite first_relay_count by (destruct Hwf' as [_ [H _]]; eapply H; eauto).
    specialize (Hout (FirstServer.roomId s)).
    unfold Membership.member in Hout. rewrite Er in Hout.
    unfold JsMap.has. now rewrite Hout.
  - intros Hs. unfold FirstServer.disconnect. now rewrite Hs.
Qed.

(** X16.  A language change takes effect on the next utterance: once a
    member has changed to a language, an utterance in that language from
    another member of the room reaches it as a plain new-message, with no
    backend call, and an utterance in any other language is translated
    into the new language. *)
Theorem language_change_redirects_the_relay :
  forall (N : Network) x sender language text st (w : world N) sx ss,
    Membership.well_formed st -> Membership.coherent st ->
    JsMap.get x (FirstServer.userSessions st) = Some sx ->
    JsMap.get sender (FirstServer.userSessions st) = Some ss ->
    FirstServer.roomId sx = FirstServer.roomId ss ->
    x <> sender ->
    let st' := snd (FirstServer.changeLanguage x language st) in
    (exists w0, forall acts,
        In (x, acts) (fst (FirstServer.liveSpeech N sender text language st' w))
        <-> acts =
            [Emit (ToRoom x)
               (FirstServer.NewMessage text (FirstServer.sessionUserName ss)
                  (clock N w0))])
    /\ (forall source,
        source <> language ->
        exists w0 res calls w1,
          translateWithFreeServices N text source language w0
            = (res, calls, w1)
          /\ forall acts,
              In (x, acts)
                 (fst (FirstServer.liveSpeech N sender text source st' w))
              <-> acts =
                  map Invoke calls ++
                  [Emit (ToRoom x)
                     (FirstServer.LiveTranslation text
                        match res with
                        | Translated v => v
                        | ChainError _ => JStr text
                        end
                        (FirstServer.sessionUserName ss) source language
                        (clock N w1)
                        match res with
                        | Translated _ => None
                        | ChainError _ => Some "Translation failed"
                        end)]).
Proof.
  intros N x sender language text st w sx ss Hwf Hc Hx Hsd Hroom Hne st'.
  destruct (proj1 Hc x sx Hx) as [info [Hm _]].
  pose proof (changeLanguage_well_formed x language st Hwf) as Hwf'.
  pose proof (changeLanguage_member x language st sx info
                (FirstServer.roomId ss) x Hx Hm) as Hm'.
  fold st' in Hwf', Hm'.
  rewrite Hroom, !String.eqb_refl in Hm'. simpl in Hm'.
  assert (Hsd' : JsMap.get sender (FirstServer.userSessions st') = Some ss).
  { unfold st'. rewrite (changeLanguage_sessions x language st sx Hx).
    rewrite get_set_other by exact Hne. exact Hsd. }
  unfold Membership.member in Hm'.
  destruct (JsMap.get (FirstServer.roomId ss) (FirstServer.rooms st'))
    as [r|] eqn:Er; [|discriminate].
  assert (Hwfr : JsMap.wf (FirstServer.users r))
    by (destruct Hwf' as [_ [H _]]; eapply H; eauto).
  split.
  - unfold FirstServer.liveSpeech. rewrite Hsd', Er.
    destruct (forEach_entry
                (FirstServer.relayTo N sender ss text language)
                (FirstServer.users r) w x _ Hwfr Hm') as [w0 H].
    exists w0. intros acts. rewrite H.
    now rewrite first_relayTo_same_language.
  - intros source Hsrc. unfold FirstServer.liveSpeech. rewrite Hsd', Er.
    destruct (forEach_entry
                (FirstServer.relayTo N sender ss text source)
                (FirstServer.users r) w x _ Hwfr Hm') as [w0 H].
    destruct (translateWithFreeServices N text source language w0)
      as [[res calls] w1] eqn:Et.
    exists w0, res, calls, w1. split; [exact Et|].
    intros acts. rewrite H.
    rewrite first_relayTo_other_language by (simpl; congruence).
    simpl. now rewrite Et.
Qed.

(** ** The registry of the second server *)

Section SecondRegistry.
Import SecondServer SecondServerApi.

Lemma updateRoomUsers_leave_keeps rid u st :
  JsMap.wf (activeRooms st) -> populated (activeRooms st) ->
  JsMap.wf (activeRooms (updateRoomUsers rid u "leave" st))
  /\ populated (activeRooms (updateRoomUsers rid u "leave" st)).
Proof.
  intros Hwf Hpop. unfold updateRoomUsers, JsMap.has.
  destruct (JsMap.get rid (activeRooms st)) as [r|] eqn:Er.
  - rewrite Er. simpl.
    destruct (Nat.eqb_spec (JsMap.size (JsMap.delete u r)) 0) as [Hz|Hnz].
    + split; [now apply wf_delete, wf_set|].
      intros k r0. destruct (String.eqb_spec rid k) as [<-|Hne].
      * rewrite get_delete_same by now apply wf_set. discriminate.
      * rewrite get_delete_other, get_set_other by exact Hne. apply Hpop.
    + split; [now apply wf_set|].
      intros k r0. destruct (String.eqb_spec rid k) as [<-|Hne].
      * rewrite get_set_same. intros [= <-]. lia.
      * rewrite get_set_other by exact Hne. apply Hpop.
  - rewrite get_set_same. simpl.
    split; [now apply wf_delete, wf_set, wf_set|].
    intros k r0. destruct (String.eqb_spec rid k) as [<-|Hne].
    + rewrite get_delete_same by now apply wf_set, wf_set. discriminate.
    + rewrite get_delete_other, !get_set_other by exact Hne. apply Hpop.
Qed.

Lemma updateRoomUsers_join_keeps rid u st s :
  JsMap.get u (userSessions st) = Some s ->
  JsMap.wf (activeRooms st) -> populated (activeRooms st) ->
  JsMap.wf (activeRooms (updateRoomUsers rid u "join" st))
  /\ populated (activeRooms (updateRoomUsers rid u "join" st)).
Proof.
  intros Hs Hwf Hpop. unfold updateRoomUsers, JsMap.has.
  destruct (JsMap.get rid (activeRooms st)) as [r|] eqn:Er.
  - rewrite Er, Hs. simpl. split; [now apply wf_set|].
    intros k r0. destruct (String.eqb_spec rid k) as [<-|Hne].
    + rewrite get_set_same. intros [= <-]. apply size_set_pos.
    + rewrite get_set_other by exact Hne. apply Hpop.
  - rewrite get_set_same, Hs. simpl. split; [now apply wf_set, wf_set|].
    intros k r0. destruct (String.eqb_spec rid k) as [<-|Hne].
    + rewrite get_set_same. intros [= <-]. unfold JsMap.size. simpl. lia.
    + rewrite !get_set_other by exact Hne. apply Hpop.
Qed.

Lemma second_joinRoom_state x rid name lang rnd now st :
  snd (joinRoom x rid name lang rnd now st) =
  let st1 :=
    match JsMap.get x (userSessions st) with
    | Some s => updateRoomUsers (roomId s) x "leave" st
    | None => st
    end in
  updateRoomUsers rid x "join"
    {| activeRooms := activeRooms st1;
       userSessions :=
         JsMap.set x
           {| roomId := rid; sessionUserName := orElse name rnd;
              sessionUserLanguage := orElse lang "en";
              sessionJoinedAt := now |} (userSessions st1) |}.
Proof.
  unfold joinRoom. now destruct (JsMap.get x (userSessions st)).
Qed.

Lemma second_step_keeps i st :
  JsMap.wf (activeRooms st) -> populated (activeRooms st) ->
  JsMap.wf (activeRooms (step i st)) /\ populated (activeRooms (step i st)).
Proof.
  intros Hwf Hpop. destruct i as [x rid name lang rnd now|x lang now|x now];
    simpl.
  - rewrite second_joinRoom_state. cbv zeta.
    eapply updateRoomUsers_join_keeps;
      [simpl; apply get_set_same| |]; simpl;
      destruct (JsMap.get x (userSessions st));
      try assumption; now apply updateRoomUsers_leave_keeps.
  - unfold changeLanguage.
    destruct (JsMap.get x (userSessions st)); simpl; now split.
  - unfold disconnect.
    destruct (JsMap.get x (userSessions st)) as [s|]; simpl;
      [|now split].
    now apply updateRoomUsers_leave_keeps.
Qed.

Lemma second_steps_keep inputs : forall st,
  JsMap.wf (activeRooms st) -> populated (activeRooms st) ->
  JsMap.wf (activeRooms (fold_left (fun st i => step i st) inputs st))
  /\ populated (activeRooms (fold_left (fun st i => step i st) inputs st)).
Proof.
  induction inputs as [|i inputs IH]; intros st Hwf Hpop; simpl; [tauto|].
  destruct (second_step_keeps i st Hwf Hpop). now apply IH.
Qed.
End SecondRegistry.

(** X17.  On the second server a language change reaches the session only:
    the member entry that the relay reads keeps the language given at
    join time, so what the relay sends for other members' utterances is
    the same before and after the change. *)
Theorem second_server_relay_ignores_language_change :
  forall (N : Network) x sender language now text isInterim st (w : world N),
    x <> sender ->
    SecondServer.activeRooms
      (snd (SecondServer.changeLanguage x language now st))
    = SecondServer.activeRooms st
    /\ SecondServer.liveSpeech N sender text isInterim
         (snd (SecondServer.changeLanguage x language now st)) w
       = SecondServer.liveSpeech N sender text isInterim st w.
Proof.
  intros N x sender language now text isInterim st w Hne.
  unfold SecondServer.changeLanguage.
  destruct (JsMap.get x (SecondServer.userSessions st)) as [s|];
    [|now split].
  simpl. split; [reflexivity|].
  unfold SecondServer.liveSpeech, SecondServer.getRoomUsers. simpl.
  now rewrite get_set_other by exact Hne.
Qed.

(** X18.  The second server keeps no empty room: join-room,
    change-language and disconnect preserve that every room of
    [activeRooms] has a member, so it holds in every state reached from the
    empty one. *)
Theorem second_server_keeps_no_empty_room :
  (forall inputs st,
      JsMap.wf (SecondServer.activeRooms st) ->
      SecondServerApi.populated (SecondServer.activeRooms st) ->
      SecondServerApi.populated
        (SecondServer.activeRooms
           (fold_left (fun st i => SecondServerApi.step i st) inputs st)))
  /\ (forall inputs,
      SecondServerApi.populated
        (SecondServer.activeRooms
           (fold_left (fun st i => SecondServerApi.step i st) inputs
              SecondServer.initial))).
Proof.
  split.
  - intros inputs st Hwf Hpop. now apply second_steps_keep.
  - intros inputs. apply second_steps_keep; [reflexivity|].
    intros rid r. discriminate.
Qed.

(** X19.  Room-info on the second server never answers "not found": for a
    room that is not registered it reports zero users and an empty list.
    In every state reached from the empty one that is the only way to get
    zero: the user count is zero exactly when the room does not exist, and
    it is always the length of the list returned. *)
Theorem second_server_room_info_counts_members :
  (forall rid st,
      JsMap.get rid (SecondServer.activeRooms st) = None ->
      SecondServerApi.getRoom rid st
      = {| SecondServerApi.infoRoomId := rid;
           SecondServerApi.userCount := 0;
           SecondServerApi.infoUsers := [] |})
  /\ (forall rid st,
      SecondServerApi.userCount (SecondServerApi.getRoom rid st)
      = List.length (SecondServerApi.infoUsers (SecondServerApi.getRoom rid st)))
  /\ (forall inputs rid,
      let st := fold_left (fun st i => SecondServerApi.step i st) inputs
                  SecondServer.initial in
      SecondServerApi.userCount (SecondServerApi.getRoom rid st) = 0
      <-> JsMap.get rid (SecondServer.activeRooms st) = None).
Proof.
  split; [|split].
  - intros rid st H. unfold SecondServerApi.getRoom, SecondServer.getRoomUsers.
    now rewrite H.
  - intros rid st. unfold SecondServerApi.getRoom. simpl.
    now rewrite length_map.
  - intros inputs rid st.
    assert (Hpop : SecondServerApi.populated (SecondServer.activeRooms st)).
    { apply second_steps_keep; [reflexivity|]. intros k r. discriminate. }
    unfold SecondServerApi.getRoom, SecondServer.getRoomUsers. simpl.
    destruct (JsMap.get rid (SecondServer.activeRooms st)) as [r|] eqn:Er.
    + specialize (Hpop rid r Er). split; [lia|discriminate].
    + split; reflexivity.
Qed.

(** ** The cost of an utterance *)

Section RelayCost.
Import FirstServer.
Context (N : Network) (socketId : string) (s : session)
        (text sourceLanguage : string).

Lemma chain_calls_at_most_three tgt (w : world N) :
  List.length (snd (fst (translateWithFreeServices N text sourceLanguage tgt w)))
  <= 3.
Proof.
  pose proof (tryServices_spec N text sourceLanguage tgt services w) as H.
  unfold translateWithFreeServices.
  destruct (tryServices N services text sourceLanguage tgt w)
    as [[res calls] w1].
  destruct H as [[n Hn] _]. simpl.
  rewrite <- (length_map callee), Hn, length_firstn. simpl. lia.
Qed.

Lemma invocations_app {E} (a b : list (action E)) :
  Cases.invocations (a ++ b) = Cases.invocations a + Cases.invocations b.
Proof. unfold Cases.invocations. now rewrite filter_app, length_app. Qed.

Lemma invocations_invokes {E} (calls : list call) :
  Cases.invocations (map (@Invoke E) calls) = List.length calls.
Proof.
  unfold Cases.invocations. induction calls; simpl; [reflexivity|].
  now rewrite IHcalls.
Qed.

Lemma relayTo_invocations u info w :
  Cases.invocations
    (fst (relayTo N socketId s text sourceLanguage u info w))
  <= if negb (String.eqb u socketId)
        && negb (String.eqb (userLanguage info) sourceLanguage)
     then 3 else 0.
Proof.
  unfold relayTo. destruct (String.eqb u socketId); simpl;
    [unfold Cases.invocations; simpl; lia|].
  destruct (String.eqb (userLanguage info) sourceLanguage); simpl;
    [unfold Cases.invocations; simpl; lia|].
  pose proof (chain_calls_at_most_three (userLanguage info) w) as H.
  destruct (translateWithFreeServices N text sourceLanguage
              (userLanguage info) w) as [[[v|message] calls] w1];
    simpl in *; rewrite invocations_app, invocations_invokes;
    unfold Cases.invocations; simpl; lia.
Qed.

Lemma relay_invocations (members : JsMap.t userInfo) : forall w,
  Cases.invocations
    (flatten (fst (forEach (relayTo N socketId s text sourceLanguage)
                     members w)))
  <= 3 * JsMap.size (Cases.translated_for socketId sourceLanguage members).
Proof.
  induction members as [|[k i] rest IH]; intros w; simpl;
    [unfold Cases.invocations; simpl; lia|].
  pose proof (relayTo_invocations k i w) as Hk.
  destruct (relayTo N socketId s text sourceLanguage k i w) as [acts w1].
  specialize (IH w1).
  destruct (forEach _ rest w1) as [log w2]. simpl in *.
  unfold flatten in *. simpl. rewrite invocations_app.
  unfold Cases.translated_for in *. simpl.
  destruct (negb (String.eqb k socketId)
            && negb (String.eqb (userLanguage i) sourceLanguage));
    unfold JsMap.size in *; simpl; lia.
Qed.
End RelayCost.

(** X20.  An utterance on the first server costs at most three backend
    calls for each member other than the sender whose language differs
    from the language of the utterance, and none for anyone else: a room
    where everybody speaks that language causes no backend call at all. *)
Theorem utterance_costs_three_calls_per_translated_member :
  forall (N : Network) socketId text sourceLanguage st (w : world N) s r,
    JsMap.get socketId (FirstServer.userSessions st) = Some s ->
    JsMap.get (FirstServer.roomId s) (FirstServer.rooms st) = Some r ->
    Cases.invocations
      (flatten (fst (FirstServer.liveSpeech N socketId text sourceLanguage
                       st w)))
    <= 3 * JsMap.size
             (Cases.translated_for socketId sourceLanguage
                (FirstServer.users r))
    /\ (Cases.translated_for socketId sourceLanguage (FirstServer.users r)
        = [] ->
        snd (FirstServer.liveSpeech N socketId text sourceLanguage st w) = w
        /\ Cases.invocations
             (flatten (fst (FirstServer.liveSpeech N socketId text
                              sourceLanguage st w))) = 0).
Proof.
  intros N socketId text sourceLanguage st w s r Hs Hr.
  pose proof (relay_invocations N socketId s text sourceLanguage
                (FirstServer.users r) w) as Hle.
  unfold FirstServer.liveSpeech. rewrite Hs, Hr.
  split; [exact Hle|].
  intros Hnone. rewrite Hnone in Hle. simpl in Hle. split; [|lia].
  clear Hle. revert w Hnone. unfold Cases.translated_for.
  induction (FirstServer.users r) as [|[k i] rest IH]; intros w; simpl;
    [reflexivity|].
  unfold FirstServer.relayTo at 1.
  destruct (String.eqb k socketId); simpl.
  - intros Hnone. specialize (IH w Hnone).
    now destruct (forEach _ rest w).
  - destruct (String.eqb (FirstServer.userLanguage i) sourceLanguage); simpl;
      [|discriminate].
    intros Hnone. specialize (IH w Hnone).
    now destruct (forEach _ rest w).
Qed.

(** ** Concrete runs *)

Lemma room1_coherent :
  Membership.well_formed Scenario.room1 /\ Membership.coherent Scenario.room1.
Proof.
  destruct initial_coherent as [Hwf Hc].
  exact (run_coherent
           [FirstServer.JoinRoom "alice" "R1" "Alice" "en" 1;
            FirstServer.JoinRoom "bob" "R1" "Bob" "es" 2;
            FirstServer.JoinRoom "carol" "R1" "Carol" "en" 3]
           FirstServer.initial Hwf Hc).
Qed.

Lemma store_keeps_other_entries_witness :
  JsMap.get "Hello_en_es"
    (PerformanceOptimizer.translationCache
       (PerformanceOptimizer.cacheTranslation 2 "Please" (JStr "Por favor")
          "en" "es" Scenario.warm))
  = JsMap.get "Hello_en_es"
      (PerformanceOptimizer.translationCache Scenario.warm).
Proof.
  apply store_keeps_other_entries.
  - intros H. cbv in H. discriminate H.
  - left. simpl. lia.
Defined.

Lemma sweep_drops_exactly_the_expired_witness :
  JsMap.get "Hello_en_es"
    (PerformanceOptimizer.translationCache
       (PerformanceOptimizer.cleanupCache 2000000 Scenario.warm)) = None
  /\ JsMap.get "Hello_en_es"
       (PerformanceOptimizer.translationCache
          (PerformanceOptimizer.cleanupCache 1800001 Scenario.warm))
     = JsMap.get "Hello_en_es"
         (PerformanceOptimizer.translationCache Scenario.warm).
Proof.
  split.
  - destruct (sweep_drops_exactly_the_expired 2000000%Z Scenario.warm eq_refl)
      as [H _].
    exact (H "Hello_en_es").
  - destruct (sweep_drops_exactly_the_expired 1800001%Z Scenario.warm eq_refl)
      as [H _].
    exact (H "Hello_en_es").
Defined.

Lemma entry_expires_despite_lookups_witness :
  fst (PerformanceOptimizer.getCachedTranslation 2000002 "Hello" "en" "es"
         (PerformanceOptimizer.cleanupCache 2000001
            (snd (PerformanceOptimizer.getCachedTranslation 2000000 "Hello"
                    "en" "es"
                    (PerformanceOptimizer.cacheTranslation 1 "Hello"
                       (JStr "Hola") "en" "es"
                       (PerformanceOptimizer.newOptimizer false))))))
  = None.
Proof.
  apply entry_expires_despite_lookups; [reflexivity|lia].
Defined.

Lemma second_translation_is_served_from_cache_witness :
  exists o1,
    PerformanceOptimizer.translateSingle Scenario.endpoint 1 2 Cases.hello
      (PerformanceOptimizer.newOptimizer false) 0
    = (PerformanceOptimizer.FromServer
         {| PerformanceOptimizer.success := JBool true;
            PerformanceOptimizer.replyText := JStr "Hola" |},
       [Cases.hello], o1, 1)
    /\ forall w2 : nat, exists o2,
        PerformanceOptimizer.translateSingle Scenario.endpoint 3 4 Cases.hello
          o1 w2
        = (PerformanceOptimizer.FromCache "Hello" (JStr "Hola"), [], o2, w2).
Proof.
  exact (second_translation_is_served_from_cache Scenario.endpoint
           1%Z 2%Z 3%Z 4%Z Cases.hello
           (PerformanceOptimizer.newOptimizer false) 0 1 _
           eq_refl eq_refl eq_refl).
Defined.


Lemma join_moves_the_connection_witness :
  Membership.member
    (FirstServer.rooms
       (snd (FirstServer.joinRoom "alice" "R2" "Alice" "en" 9 Scenario.room1)))
    "R2" "alice"
  = Some {| FirstServer.userName := "Alice";
            FirstServer.userLanguage := "en";
            FirstServer.joinedAt := 9 |}
  /\ Membership.member
       (FirstServer.rooms
          (snd (FirstServer.joinRoom "alice" "R2" "Alice" "en" 9
                  Scenario.room1)))
       "R1" "alice" = None.
Proof.
  destruct (join_moves_the_connection "alice" "R2" "Alice" "en" 9%Z
              Scenario.room1 (proj1 room1_coherent)) as [H1 [_ [H3 _]]].
  split; [exact H1|].
  refine (H3 _ eq_refl _). discriminate.
Defined.

Lemma disconnect_removes_the_connection_witness :
  JsMap.get "carol"
    (FirstServer.userSessions (snd (FirstServer.disconnect "carol"
                                      Scenario.room1))) = None
  /\ events_to "carol"
       (flatten (fst (FirstServer.liveSpeech Scenario.up "alice" "Hello" "en"
                        (snd (FirstServer.disconnect "carol" Scenario.room1))
                        0))) = 0.
Proof.
  destruct (disconnect_removes_the_connection Scenario.up "carol"
              Scenario.room1 (proj1 room1_coherent) (proj2 room1_coherent))
    as [H1 [_ [_ [_ [H5 _]]]]].
  split; [exact H1|]. exact (H5 "alice" "Hello" "en" 0).
Defined.

Lemma language_change_redirects_the_relay_witness :
  exists w0 : nat, forall acts,
    In ("bob", acts)
       (fst (FirstServer.liveSpeech Scenario.up "alice" "Hello" "en"
               (snd (FirstServer.changeLanguage "bob" "en" Scenario.room1))
               0))
    <-> acts =
        [Emit (ToRoom "bob")
           (FirstServer.NewMessage "Hello" "Alice" (Z.of_nat w0))].
Proof.
  edestruct (language_change_redirects_the_relay Scenario.up "bob" "alice"
               "en" "Hello" Scenario.room1 0)
    as [H _];
    [exact (proj1 room1_coherent) | exact (proj2 room1_coherent)
    | reflexivity | reflexivity | reflexivity | discriminate | exact H].
Defined.

Lemma second_server_relay_ignores_language_change_witness :
  SecondServer.liveSpeech Scenario.up "alice" "Hello" false
    (snd (SecondServer.changeLanguage "bob" "en" 5 Scenario.room2)) 0
  = SecondServer.liveSpeech Scenario.up "alice" "Hello" false
      Scenario.room2 0.
Proof.
  refine (proj2 (second_server_relay_ignores_language_change Scenario.up
                   "bob" "alice" "en" 5%Z "Hello" false Scenario.room2 0 _)).
  discriminate.
Defined.

Lemma utterance_costs_three_calls_per_translated_member_witness :
  Cases.invocations
    (flatten (fst (FirstServer.liveSpeech Scenario.down "alice" "X" "en"
                     Scenario.room1 tt))) <= 3.
Proof.
  exact (proj1 (utterance_costs_three_calls_per_translated_member
                  Scenario.down "alice" "X" "en" Scenario.room1 tt _ _
                  eq_refl eq_refl)).
Defined.
